(** * merge-coin: a shallow embedding of [src/main.ts]

    The program consolidates the coin objects an account holds on a Sui
    node.  Everything it does is a sequence of remote calls, console
    lines and timer waits, so the embedding is a small monad over an
    abstract node state [W]:

    - a computation either finishes (normally, or with a thrown error),
      yielding the new node state and the effects it performed in order,
      or it is still running when the loop bound ([fuel]) is used up;
    - the node ([SuiClient]) is a deterministic transition system on [W]:
      every remote call returns an answer or an error and a new state.

    JavaScript numbers are modelled by [Z]: every number the program
    handles is an array length, an index, or the integral [batchSize].
    The SDK (client, key pair, key decoding, and the check the
    transaction builder makes of an object identifier) is a parameter,
    [Sdk]. *)

From Stdlib Require Import String DecimalString.
From Stdlib Require Import List ZArith Bool Lia.
Import ListNotations.
Open Scope string_scope.
Open Scope list_scope.
Open Scope Z_scope.

Set Implicit Arguments.

(** ** Data *)

Definition Address := string.
Definition TokenType := string.
Definition ObjectId := string.
Definition Cursor := string.
Definition Error := string.

(** [client.getAllBalances] answers with one record per entry. *)
Record CoinBalance := {
  coinType : TokenType;
  coinObjectCount : Z;
  totalBalance : Z
}.

(** [client.getCoins] answers with a page of coins. *)
Record CoinStruct := {
  coinObjectId : ObjectId;
  balance : Z
}.

(** [nextCursor] is [string | null | undefined] in the source and is read
    through [nextCursor ?? null]: both absent values are [None]. *)
Record PaginatedCoins := {
  data : list CoinStruct;
  hasNextPage : bool;
  nextCursor : option Cursor
}.

Record GetCoinsParams := {
  gc_owner : Address;
  gc_coinType : TokenType;
  gc_cursor : option Cursor;
  gc_limit : Z
}.

(** A key pair, as [Ed25519Keypair.fromSecretKey] builds it from the
    hex-encoded secret. *)
Record Keypair := { secretKeyHex : string }.

(** Programmable transaction: [txb.object id] is an argument,
    [txb.mergeCoins dst srcs] appends a command. *)
Inductive TxArgument := TxObject (id : ObjectId).

Inductive Command := MergeCoins (destination : TxArgument) (sources : list TxArgument).

Definition Transaction := list Command.

Record ExecuteParams := {
  transaction : Transaction;
  signer : Keypair;
  showEffects : bool;
  showEvents : bool
}.

Record TransactionResponse := { digest : string }.

Inductive Result (A : Type) :=
| Ok (a : A)
| Throw (e : Error).
Arguments Ok {A} a.
Arguments Throw {A} e.

(** ** Observable effects *)

(** The text of each console line, with the values spliced into it. *)
Inductive Message :=
| ErrorFetchingTokens (address : Address)
| FetchedStopping (n : Z)
| ErrorFetchingCoinObjectIds (address : Address)
| NoCoinsNeedMerged
| FoundObjects (n : Z) (token : TokenType)
| LessThan2Coins
| BatchMerged (k : Z) (dig : string)
| AllMerged
| ErrorMergingCoins
| NoOwnedTokensFound
| FoundOwnedTokens (n : Z) (address : Address)
| TokenAddressLine (token : TokenType).

Inductive Request :=
| ReqGetAllBalances (owner : Address)
| ReqGetCoins (p : GetCoinsParams)
| ReqSignAndExecute (p : ExecuteParams).

Inductive Event :=
| ConsoleLog (m : Message)
| ConsoleError (m : option Message) (e : Error)
| SetTimeout (ms : Z)
| Rpc (r : Request).

(** ** The node and the SDK *)

Record SuiClient (W : Type) := {
  getAllBalances : Address -> W -> Result (list CoinBalance) * W;
  getCoins : GetCoinsParams -> W -> Result PaginatedCoins * W;
  signAndExecuteTransaction : ExecuteParams -> W -> Result TransactionResponse * W
}.

(** What the program imports: client construction, key handling, the
    check [txb.object] makes of an identifier (it throws on one the SDK
    refuses), and the environment variable the program reads. *)
Record Sdk (W : Type) := {
  newSuiClient : string -> SuiClient W;
  fromSecretKey : string -> Result Keypair;
  toSuiAddress : Keypair -> Address;
  decodeSuiPrivateKey : option string -> Result string;
  checkObjectId : ObjectId -> Result unit;
  MERGE_COIN_PRIVATE_KEY : option string
}.

Definition SUI_RPC_URL : string := "https://fullnode.mainnet.sui.io/".

(** ** The effect monad *)

Module Eff.

Section Monad.
Context {W : Type}.

(** [None]: still running when the loop bound was reached. *)
Definition M (A : Type) : Type := W -> option (Result A * W * list Event).

Definition ret {A} (a : A) : M A := fun w => Some (Ok a, w, []).

Definition throw {A} (e : Error) : M A := fun w => Some (Throw e, w, []).

Definition bind {A B} (m : M A) (k : A -> M B) : M B :=
  fun w =>
    match m w with
    | None => None
    | Some (Throw e, w1, t1) => Some (Throw e, w1, t1)
    | Some (Ok a, w1, t1) =>
        match k a w1 with
        | None => None
        | Some (r, w2, t2) => Some (r, w2, t1 ++ t2)
        end
    end.

(** [try { m } catch (e) { h e }] *)
Definition try_catch {A} (m : M A) (h : Error -> M A) : M A :=
  fun w =>
    match m w with
    | None => None
    | Some (Ok a, w1, t1) => Some (Ok a, w1, t1)
    | Some (Throw e, w1, t1) =>
        match h e w1 with
        | None => None
        | Some (r, w2, t2) => Some (r, w2, t1 ++ t2)
        end
    end.

(** [m'] finishes wherever [m] does, and in the same way. *)
Definition extends {A} (m m' : M A) : Prop :=
  forall w r, m w = Some r -> m' w = Some r.

(** Every effect of a finished run of [m] satisfies [P]. *)
Definition emits {A} (P : Event -> Prop) (m : M A) : Prop :=
  forall w r w' t, m w = Some (r, w', t) -> Forall P t.

Definition emit (ev : Event) : M unit := fun w => Some (Ok tt, w, [ev]).

(** A synchronous SDK function that may throw. *)
Definition lift {A} (r : Result A) : M A := fun w => Some (r, w, []).

(** An awaited remote call; the request is recorded. *)
Definition call {A} (req : Request) (f : W -> Result A * W) : M A :=
  fun w => let (r, w1) := f w in Some (r, w1, [Rpc req]).

Definition when (b : bool) (m : M unit) : M unit := if b then m else ret tt.

Inductive Step (S : Type) :=
| Continue (s : S)
| Break (s : S).

(** [while (cond) { body }]; the body may [break].  [fuel] bounds the
    number of turns: a loop whose condition is false needs none. *)
Fixpoint while {S} (fuel : nat) (cond : S -> bool) (body : S -> M (Step S)) (s : S)
  : M S :=
  if cond s then
    match fuel with
    | O => fun _ => None
    | Datatypes.S fuel' =>
        bind (body s) (fun r =>
          match r with
          | Continue s1 => while fuel' cond body s1
          | Break s1 => ret s1
          end)
    end
  else ret s.

(** [for (const x of xs) { body x }] *)
Fixpoint for_of {A} (xs : list A) (body : A -> M unit) : M unit :=
  match xs with
  | [] => ret tt
  | x :: xs' => bind (body x) (fun _ => for_of xs' body)
  end.

End Monad.

Arguments M W A : clear implicits.
Arguments Continue {S} s.
Arguments Break {S} s.

End Eff.

Import Eff.

Notation "x <- m ;; k" := (bind m (fun x => k))
  (at level 61, m at next level, right associativity).
Notation "m ;;; k" := (bind m (fun _ => k))
  (at level 61, right associativity).

(** ** Arrays *)

(** [a.length] *)
Definition len {A} (l : list A) : Z := Z.of_nat (List.length l).

(** An index argument of [slice], made relative to the array: negative
    values count from the end, and the result is clamped to [0, length]. *)
Definition relative_index (n k : Z) : Z :=
  if k <? 0 then Z.max (n + k) 0 else Z.min k n.

(** [a.slice(start, end)] for integral [start] and [end]. *)
Definition slice {A} (l : list A) (start stop : Z) : list A :=
  let from := relative_index (len l) start in
  let final := relative_index (len l) stop in
  firstn (Z.to_nat (final - from)) (skipn (Z.to_nat from) l).

(** ** The program *)

Section Program.
Context {W : Type}.
Variable sdk : Sdk W.

(** [getOwnedTokens], lines 9-21. *)
Definition getOwnedTokens (client : SuiClient W) (address : Address)
  : M W (list TokenType) :=
  try_catch
    (allBalances <- call (ReqGetAllBalances address) (getAllBalances client address) ;;
     let tokenInfos := map coinType allBalances in
     ret tokenInfos)
    (fun error =>
       emit (ConsoleError (Some (ErrorFetchingTokens address)) error) ;;;
       ret []).

(** The variables of the paging loop, lines 25-27. *)
Record Paging := {
  allCoins : list ObjectId;
  cursor : option Cursor;
  hasMore : bool
}.

Definition paging_start : Paging :=
  {| allCoins := []; cursor := None; hasMore := true |}.

Definition getCoinsParams (address : Address) (tokenAddress : TokenType)
    (cur : option Cursor) : GetCoinsParams :=
  {| gc_owner := address; gc_coinType := tokenAddress;
     gc_cursor := cur; gc_limit := 50 |}.

(** One turn of the [while (hasMore)] loop, lines 30-43. *)
Definition paging_body (client : SuiClient W) (address : Address)
    (tokenAddress : TokenType) (st : Paging) : M W (Step Paging) :=
  let params := getCoinsParams address tokenAddress (cursor st) in
  page <- call (ReqGetCoins params) (getCoins client params) ;;
  let allCoins1 := allCoins st ++ map coinObjectId (data page) in
  if 5000 <=? len allCoins1 then
    emit (ConsoleLog (FetchedStopping (len allCoins1))) ;;;
    ret (Break {| allCoins := allCoins1; cursor := cursor st; hasMore := hasMore st |})
  else
    ret (Continue {| allCoins := allCoins1;
                     cursor := nextCursor page;
                     hasMore := hasNextPage page |}).

(** The loop with the [return allCoins] that follows it, lines 25-46. *)
Definition paging_loop (fuel : nat) (client : SuiClient W) (address : Address)
    (tokenAddress : TokenType) (st : Paging) : M W (list ObjectId) :=
  st1 <- while fuel hasMore (paging_body client address tokenAddress) st ;;
  ret (allCoins st1).

(** [getAllTokenObjectIds], lines 23-51. *)
Definition getAllTokenObjectIds (fuel : nat) (client : SuiClient W)
    (address : Address) (tokenAddress : TokenType) : M W (list ObjectId) :=
  try_catch
    (paging_loop fuel client address tokenAddress paging_start)
    (fun error =>
       emit (ConsoleError (Some (ErrorFetchingCoinObjectIds address)) error) ;;;
       ret []).

(** The transaction of a batch whose identifiers [txb.object] all
    accepts: the first object is the merge target and each later object
    is merged into it by a command of its own. *)
Definition merge_transaction (batch : list ObjectId) : Transaction :=
  match batch with
  | [] => []
  | first :: rest =>
      let primaryCoin := TxObject first in
      map (fun id => MergeCoins primaryCoin [TxObject id]) rest
  end.

(** [txb.object(id)]: a reference to the object, or the error the SDK
    throws on an identifier it refuses. *)
Definition txb_object (id : ObjectId) : Result TxArgument :=
  match checkObjectId sdk id with
  | Ok _ => Ok (TxObject id)
  | Throw e => Throw e
  end.

(** The inner loop, lines 90-92: [j] runs over the objects after the
    first; each turn evaluates [txb.object(batch[j])] and appends the
    command [txb.mergeCoins(primaryCoin, [..])].  The first refusal ends
    the building. *)
Fixpoint merge_into (primaryCoin : TxArgument) (others : list ObjectId)
  : Result Transaction :=
  match others with
  | [] => Ok []
  | id :: others' =>
      match txb_object id with
      | Throw e => Throw e
      | Ok coin =>
          match merge_into primaryCoin others' with
          | Throw e => Throw e
          | Ok commands => Ok (MergeCoins primaryCoin [coin] :: commands)
          end
      end
  end.

(** Building the transaction of one batch, lines 84-92.  The batch holds
    two objects or more when this is reached (line 83). *)
Definition build_merge (batch : list ObjectId) : Result Transaction :=
  match batch with
  | [] => Ok []
  | first :: others =>
      match txb_object first with
      | Throw e => Throw e
      | Ok primaryCoin => merge_into primaryCoin others
      end
  end.

Definition executeParams (keyPair : Keypair) (txb : Transaction) : ExecuteParams :=
  {| transaction := txb; signer := keyPair; showEffects := true; showEvents := true |}.

(** [tokenObjectIds.slice(i, Math.min(i + batchSize, tokenObjectIds.length))] *)
Definition batch_at (tokenObjectIds : list ObjectId) (batchSize i : Z) : list ObjectId :=
  slice tokenObjectIds i (Z.min (i + batchSize) (len tokenObjectIds)).

(** One turn of the batching loop followed by [i += batchSize],
    lines 80-110.  [i / batchSize] is exact: [i] is a multiple of
    [batchSize] at every turn. *)
Definition batch_body (client : SuiClient W) (keyPair : Keypair)
    (tokenObjectIds : list ObjectId) (batchSize : Z) (i : Z) : M W (Step Z) :=
  let batch := batch_at tokenObjectIds batchSize i in
  (if 1 <? len batch then
     txb <- lift (build_merge batch) ;;
     let params := executeParams keyPair txb in
     result <- call (ReqSignAndExecute params) (signAndExecuteTransaction client params) ;;
     emit (ConsoleLog (BatchMerged (i / batchSize + 1) (digest result))) ;;;
     when (i + batchSize <? len tokenObjectIds) (emit (SetTimeout 1000))
   else ret tt) ;;;
  ret (Continue (i + batchSize)).

Definition batch_loop (fuel : nat) (client : SuiClient W) (keyPair : Keypair)
    (tokenObjectIds : list ObjectId) (batchSize : Z) (i : Z) : M W Z :=
  while fuel (fun i => i <? len tokenObjectIds)
    (batch_body client keyPair tokenObjectIds batchSize) i.

(** What [mergeCoinObjects] does with the identifiers it has fetched,
    lines 68-112. *)
Definition merge_fetched (fuel : nat) (client : SuiClient W) (keyPair : Keypair)
    (tokenAddress : TokenType) (batchSize : Z) (tokenObjectIds : list ObjectId)
  : M W unit :=
  if len tokenObjectIds <=? 1 then
    emit (ConsoleLog NoCoinsNeedMerged)
  else
    emit (ConsoleLog (FoundObjects (len tokenObjectIds) tokenAddress)) ;;;
    if len tokenObjectIds <=? 1 then
      emit (ConsoleLog LessThan2Coins)
    else
      batch_loop fuel client keyPair tokenObjectIds batchSize 0 ;;;
      emit (ConsoleLog AllMerged).

(** The body of the [try] of [mergeCoinObjects], lines 60-112. *)
Definition mergeCoinObjects_try (fuel : nat) (privateKey : string)
    (tokenAddress : TokenType) (batchSize : Z) (rpcUrl : string) : M W unit :=
  let client := newSuiClient sdk rpcUrl in
  keyPair <- lift (fromSecretKey sdk privateKey) ;;
  let address := toSuiAddress sdk keyPair in
  tokenObjectIds <- getAllTokenObjectIds fuel client address tokenAddress ;;
  merge_fetched fuel client keyPair tokenAddress batchSize tokenObjectIds.

(** [mergeCoinObjects], lines 53-118.  The defaults of the source are
    [batchSize = 500] and [rpcUrl = SUI_RPC_URL]. *)
Definition mergeCoinObjects (fuel : nat) (privateKey : string)
    (tokenAddress : TokenType) (batchSize : Z) (rpcUrl : string) : M W unit :=
  try_catch
    (mergeCoinObjects_try fuel privateKey tokenAddress batchSize rpcUrl)
    (fun error =>
       emit (ConsoleError (Some ErrorMergingCoins) error) ;;;
       throw error).

(** One turn of the loop over the owned tokens, lines 141-148. *)
Definition main_body (fuel : nat) (privateKey : string) (token : TokenType) : M W unit :=
  emit (ConsoleLog (TokenAddressLine token)) ;;;
  mergeCoinObjects fuel privateKey token 500 SUI_RPC_URL.

(** [main], lines 120-149.  [dotenv.config()] only fills the environment,
    which [sdk] holds; [privateKey] is the decoded secret in hex. *)
Definition main (fuel : nat) : M W unit :=
  privateKey <- lift (decodeSuiPrivateKey sdk (MERGE_COIN_PRIVATE_KEY sdk)) ;;
  keyPair <- lift (fromSecretKey sdk privateKey) ;;
  let userAddress := toSuiAddress sdk keyPair in
  let client := newSuiClient sdk SUI_RPC_URL in
  ownedTokens <- getOwnedTokens client userAddress ;;
  if len ownedTokens =? 0 then
    emit (ConsoleLog NoOwnedTokensFound)
  else
    emit (ConsoleLog (FoundOwnedTokens (len ownedTokens) userAddress)) ;;;
    for_of ownedTokens (main_body fuel privateKey).

(** [main().catch(console.error)], line 151: a rejection of [main] is
    handled by printing the error, and the handled promise is fulfilled. *)
Definition program (fuel : nat) : M W unit :=
  try_catch (main fuel) (fun error => emit (ConsoleError None error)).

(** The status the runtime exits with once the promise of line 151 has
    settled and nothing is left to run: [process.exitCode] is never set,
    so it is [0] unless a rejection was left unhandled, which ends the
    process with status [1]. *)
Definition exit_status (settled : Result unit) : Z :=
  match settled with
  | Ok _ => 0
  | Throw _ => 1
  end.

Definition run (fuel : nat) (w : W) : option (Z * list Event) :=
  match program fuel w with
  | None => None
  | Some (r, _, t) => Some (exit_status r, t)
  end.

End Program.

(** ** Notions the statements are written with *)

Section Pages.
Context {W : Type}.
Variable client : SuiClient W.
Variable address : Address.
Variable tokenAddress : TokenType.

Definition ids_of (page : PaginatedCoins) : list ObjectId :=
  map coinObjectId (data page).

(** The answer to request number [k] (from 0) of a client that starts at
    cursor [cur] in node state [w] and follows the cursors it is given.
    An error ends the sequence. *)
Fixpoint page_at (k : nat) (cur : option Cursor) (w : W) : Result PaginatedCoins :=
  match k, getCoins client (getCoinsParams address tokenAddress cur) w with
  | O, (r, _) => r
  | S k', (Ok page, w1) => page_at k' (nextCursor page) w1
  | S _, (Throw e, _) => Throw e
  end.

(** The identifiers of the first [n] pages, in the order served. *)
Fixpoint fetched (n : nat) (cur : option Cursor) (w : W) : list ObjectId :=
  match n with
  | O => []
  | S n' =>
      match getCoins client (getCoinsParams address tokenAddress cur) w with
      | (Ok page, w1) => ids_of page ++ fetched n' (nextCursor page) w1
      | (Throw _, _) => []
      end
  end.

(** The cursor that request number [k] carries: none at first, then the
    [nextCursor] of the page before. *)
Fixpoint cursor_at (k : nat) (cur : option Cursor) (w : W) : option Cursor :=
  match k with
  | O => cur
  | S k' =>
      match getCoins client (getCoinsParams address tokenAddress cur) w with
      | (Ok page, w1) => cursor_at k' (nextCursor page) w1
      | (Throw _, _) => cur
      end
  end.

End Pages.

(** The [getCoins] requests of a run. *)
Definition page_requests (t : list Event) : Z :=
  len (filter (fun ev => match ev with Rpc (ReqGetCoins _) => true | _ => false end) t).

(** The remote calls of a run, in order. *)
Definition requests (t : list Event) : list Request :=
  flat_map (fun ev => match ev with Rpc r => [r] | _ => [] end) t.

(** The token types the driver announced, in order. *)
Definition token_lines (t : list Event) : list TokenType :=
  flat_map (fun ev => match ev with
                      | ConsoleLog (TokenAddressLine token) => [token]
                      | _ => []
                      end) t.

(** What a run does to the chain and to the clock, console lines left out. *)
Inductive Action :=
| Submitted (tx : Transaction)
| Waited (ms : Z).

Definition action_of (ev : Event) : list Action :=
  match ev with
  | Rpc (ReqSignAndExecute p) => [Submitted (transaction p)]
  | SetTimeout ms => [Waited ms]
  | _ => []
  end.

Definition actions (t : list Event) : list Action := flat_map action_of t.

Definition is_submission (a : Action) : bool :=
  match a with Submitted _ => true | Waited _ => false end.

Definition is_delay (a : Action) : bool :=
  match a with Submitted _ => false | Waited _ => true end.

Definition submissions (t : list Event) : Z := len (filter is_submission (actions t)).

Definition delays (t : list Event) : Z := len (filter is_delay (actions t)).

Definition submitted (t : list Event) : list Transaction :=
  flat_map (fun a => match a with Submitted tx => [tx] | Waited _ => [] end) (actions t).

(** The object a command merges into, and the objects it merges away. *)
Definition destination_of (c : Command) : TxArgument :=
  match c with MergeCoins destination _ => destination end.

Definition sources_of (c : Command) : list TxArgument :=
  match c with MergeCoins _ sources => sources end.


(** The objects a transaction names: its merge target, then what it
    merges away. *)
Definition objects_of (tx : Transaction) : list TxArgument :=
  match tx with
  | [] => []
  | c :: _ => destination_of c :: flat_map sources_of tx
  end.

(** The effects [mergeCoinObjects] may have when it works for [address]
    on [tokenAddress] with [keyPair]. *)
Definition merge_event (address : Address) (tokenAddress : TokenType) (keyPair : Keypair)
    (ev : Event) : Prop :=
  match ev with
  | Rpc (ReqGetCoins p) =>
      gc_owner p = address /\ gc_coinType p = tokenAddress /\ gc_limit p = 50
  | Rpc (ReqSignAndExecute p) =>
      signer p = keyPair /\ showEffects p = true /\ showEvents p = true /\
      exists first rest, rest <> [] /\ transaction p = merge_transaction (first :: rest)
  | Rpc (ReqGetAllBalances _) => False
  | SetTimeout ms => ms = 1000
  | ConsoleLog (TokenAddressLine _) => False
  | ConsoleLog NoOwnedTokensFound => False
  | ConsoleLog (FoundOwnedTokens _ _) => False
  | ConsoleLog _ => True
  | ConsoleError (Some ErrorMergingCoins) _ => True
  | ConsoleError (Some (ErrorFetchingCoinObjectIds a)) _ => a = address
  | ConsoleError _ _ => False
  end.


(** Following the words of the specification: the partition of a sequence
    into contiguous batches of at most [b] elements, in order, the last
    one possibly smaller. *)
Fixpoint chunks {A} (fuel : nat) (b : nat) (l : list A) : list (list A) :=
  match fuel, l with
  | O, _ => []
  | _, [] => []
  | S fuel', _ :: _ => firstn b l :: chunks fuel' b (skipn b l)
  end.

Definition contiguous_batches {A} (batchSize : Z) (l : list A) : list (list A) :=
  chunks (List.length l) (Z.to_nat batchSize) l.

(** Following the words of the specification: [ceil(N / B)]. *)
Definition ceil_div (n b : Z) : Z := (n + b - 1) / b.

(** The batches that hold exactly one element. *)
Definition singletons {A} (batchSize : Z) (l : list A) : Z :=
  len (filter (fun batch => len batch =? 1) (contiguous_batches batchSize l)).

(** What the batching loop does with a partition: one transaction for
    each batch of two or more, and a one-second wait after it when a
    further batch follows. *)
Fixpoint plan (batches : list (list ObjectId)) : list Action :=
  match batches with
  | [] => []
  | batch :: later =>
      (if 1 <? len batch then
         Submitted (merge_transaction batch)
           :: (match later with [] => [] | _ :: _ => [Waited 1000] end)
       else [])
      ++ plan later
  end.

(** ** Nodes to run the program on *)

Module Sample.

(** A node that answers from a script: [getCoins] serves [pages] in order
    and then [exhausted] for ever, [signAndExecuteTransaction] serves
    [outcomes] in order and then succeeds for ever. *)
Record Node := {
  balances : Result (list CoinBalance);
  pages : list (Result PaginatedCoins);
  exhausted : Result PaginatedCoins;
  outcomes : list (Result TransactionResponse)
}.

Definition client : SuiClient Node := {|
  getAllBalances := fun _ w => (balances w, w);
  getCoins := fun _ w =>
    match pages w with
    | [] => (exhausted w, w)
    | p :: ps =>
        (p, {| balances := balances w; pages := ps;
               exhausted := exhausted w; outcomes := outcomes w |})
    end;
  signAndExecuteTransaction := fun _ w =>
    match outcomes w with
    | [] => (Ok {| digest := "digest" |}, w)
    | r :: rs =>
        (r, {| balances := balances w; pages := pages w;
               exhausted := exhausted w; outcomes := rs |})
    end
|}.

Definition sdk : Sdk Node := {|
  newSuiClient := fun _ => client;
  fromSecretKey := fun hex => Ok {| secretKeyHex := hex |};
  toSuiAddress := fun _ => "0xa11ce"%string;
  decodeSuiPrivateKey := fun v =>
    match v with
    | Some s => Ok s
    | None => Throw "invalid private key"%string
    end;
  checkObjectId := fun _ => Ok tt;
  MERGE_COIN_PRIVATE_KEY := Some "c0ffee"%string
|}.

Definition coin (n : nat) : CoinStruct :=
  {| coinObjectId := ("0xc" ++ NilEmpty.string_of_uint (Nat.to_uint n))%string;
     balance := 1 |}.

(** A page holding the [size] coins numbered from [first]. *)
Definition page (first size : nat) (more : bool) : PaginatedCoins :=
  {| data := map coin (seq first size);
     hasNextPage := more;
     nextCursor := Some (coinObjectId (coin (first + size))) |}.

Definition last_page : PaginatedCoins :=
  {| data := []; hasNextPage := false; nextCursor := None |}.

(** [count] pages of [size] coins each, every one announcing a successor. *)
Definition full_pages (size count : nat) : list (Result PaginatedCoins) :=
  map (fun k => Ok (page (k * size) size true)) (seq 0 count).

(** A node holding [n] coins of every type, served [size] to a page. *)
Definition holding (n size : nat) : Node :=
  {| balances := Ok [ {| coinType := "0x2::sui::SUI"%string; coinObjectCount := Z.of_nat n;
                         totalBalance := Z.of_nat n |} ];
     pages := full_pages size (n / size)
              ++ [Ok (page (n / size * size) (n mod size) false)];
     exhausted := Ok last_page;
     outcomes := [] |}.

(** A node that for ever answers with an empty page and announces more. *)
Definition stalling : Node :=
  {| balances := Ok [];
     pages := [];
     exhausted := Ok {| data := []; hasNextPage := true; nextCursor := None |};
     outcomes := [] |}.

(** A node that never runs out: every page is full and announces more. *)
Definition endless : Node :=
  {| balances := Ok [];
     pages := [];
     exhausted := Ok (page 0 50 true);
     outcomes := [] |}.

(** A node whose pages hold 49 coins each, one short of the limit asked. *)
Definition short_pages : Node :=
  {| balances := Ok [];
     pages := full_pages 49 110;
     exhausted := Ok last_page;
     outcomes := [] |}.

(** A node that serves two pages and then fails. *)
Definition failing_third_page : Node :=
  {| balances := Throw "balances unavailable"%string;
     pages := full_pages 50 2 ++ [Throw "request timed out"%string];
     exhausted := Ok last_page;
     outcomes := [] |}.

(** A node reporting a type whose coins are all empty, and one type twice. *)
Definition odd_balances : Node :=
  {| balances :=
       Ok [ {| coinType := "0x2::sui::SUI"%string; coinObjectCount := 1; totalBalance := 0 |};
            {| coinType := "0xa::navx::NAVX"%string; coinObjectCount := 2; totalBalance := 7 |};
            {| coinType := "0xa::navx::NAVX"%string; coinObjectCount := 1; totalBalance := 3 |} ];
     pages := [];
     exhausted := Ok last_page;
     outcomes := [] |}.

(** A node holding [n] coins of each of two types, whose first submission
    is rejected. *)
Definition rejecting (n : nat) : Node :=
  {| balances :=
       Ok [ {| coinType := "0x2::sui::SUI"%string; coinObjectCount := Z.of_nat n;
               totalBalance := 10 |};
            {| coinType := "0xa::navx::NAVX"%string; coinObjectCount := Z.of_nat n;
               totalBalance := 20 |} ];
     pages := [];
     exhausted := Ok (page 0 n false);
     outcomes := [Throw "insufficient gas"%string] |}.

(** The same imports with the environment variable left unset. *)
Definition sdk_without_key : Sdk Node := {|
  newSuiClient := newSuiClient sdk;
  fromSecretKey := fromSecretKey sdk;
  toSuiAddress := toSuiAddress sdk;
  decodeSuiPrivateKey := decodeSuiPrivateKey sdk;
  checkObjectId := checkObjectId sdk;
  MERGE_COIN_PRIVATE_KEY := None
|}.

(** The same imports with a [txb.object] that refuses the identifier
    [0xc3]. *)
Definition strict_sdk : Sdk Node := {|
  newSuiClient := newSuiClient sdk;
  fromSecretKey := fromSecretKey sdk;
  toSuiAddress := toSuiAddress sdk;
  decodeSuiPrivateKey := decodeSuiPrivateKey sdk;
  checkObjectId := fun id =>
    if String.eqb id "0xc3" then Throw "Invalid Sui Object id"%string else Ok tt;
  MERGE_COIN_PRIVATE_KEY := MERGE_COIN_PRIVATE_KEY sdk
|}.

End Sample.

(** * Facts about the monad *)

Section MonadFacts.
Context {W : Type}.

Lemma bind_ok {A B} (m : M W A) (k : A -> M W B) w a w1 t1 :
  m w = Some (Ok a, w1, t1) ->
  bind m k w =
    match k a w1 with
    | None => None
    | Some (r, w2, t2) => Some (r, w2, t1 ++ t2)
    end.
Proof. intros H. unfold bind. now rewrite H. Qed.

Lemma bind_throw {A B} (m : M W A) (k : A -> M W B) w e w1 t1 :
  m w = Some (Throw e, w1, t1) -> bind m k w = Some (Throw e, w1, t1).
Proof. intros H. unfold bind. now rewrite H. Qed.

Lemma bind_none {A B} (m : M W A) (k : A -> M W B) w :
  m w = None -> bind m k w = None.
Proof. intros H. unfold bind. now rewrite H. Qed.

(** A finished sequence finished its first part. *)
Lemma bind_inv {A B} (m : M W A) (k : A -> M W B) w r w2 t :
  bind m k w = Some (r, w2, t) ->
  (exists e, m w = Some (Throw e, w2, t) /\ r = Throw e) \/
  (exists a w1 t1 t2,
      m w = Some (Ok a, w1, t1) /\ k a w1 = Some (r, w2, t2) /\ t = t1 ++ t2).
Proof.
  unfold bind. destruct (m w) as [[[[a | e] w1] t1] |]; try discriminate.
  - destruct (k a w1) as [[[r' w2'] t2] |] eqn:K; try discriminate.
    intros [= <- <- <-]. right. now exists a, w1, t1, t2.
  - intros [= <- <- <-]. left. now exists e.
Qed.

Lemma try_catch_ok {A} (m : M W A) h w a w1 t1 :
  m w = Some (Ok a, w1, t1) -> try_catch m h w = Some (Ok a, w1, t1).
Proof. intros H. unfold try_catch. now rewrite H. Qed.

Lemma try_catch_throw {A} (m : M W A) h w e w1 t1 :
  m w = Some (Throw e, w1, t1) ->
  try_catch m h w =
    match h e w1 with
    | None => None
    | Some (r, w2, t2) => Some (r, w2, t1 ++ t2)
    end.
Proof. intros H. unfold try_catch. now rewrite H. Qed.

Lemma try_catch_none {A} (m : M W A) h w :
  m w = None -> try_catch m h w = None.
Proof. intros H. unfold try_catch. now rewrite H. Qed.

Lemma extends_refl {A} (m : M W A) : extends m m.
Proof. now intros w r. Qed.

Lemma extends_bind {A B} (m m' : M W A) (k k' : A -> M W B) :
  extends m m' -> (forall a, extends (k a) (k' a)) ->
  extends (bind m k) (bind m' k').
Proof.
  intros Hm Hk w r. unfold bind.
  destruct (m w) as [[[[a | e] w1] t1] |] eqn:E; try discriminate;
    rewrite (Hm _ _ E); auto.
  destruct (k a w1) as [[[r' w2] t2] |] eqn:K; try discriminate.
  now rewrite (Hk _ _ _ K).
Qed.

Lemma extends_try_catch {A} (m m' : M W A) (h : Error -> M W A) :
  extends m m' -> extends (try_catch m h) (try_catch m' h).
Proof.
  intros Hm w r. unfold try_catch.
  destruct (m w) as [[[[a | e] w1] t1] |] eqn:E; try discriminate;
    now rewrite (Hm _ _ E).
Qed.

(** More fuel never changes the outcome of a loop that finished. *)
Lemma while_more_fuel {S} (cond : S -> bool) (body : S -> M W (Step S)) :
  forall f f' s, (f <= f')%nat -> extends (while f cond body s) (while f' cond body s).
Proof.
  induction f as [| f IH]; intros f' s Hle w r; simpl.
  - destruct f'; simpl; destruct (cond s); auto; discriminate.
  - destruct f' as [| f']; [lia |]. simpl. destruct (cond s); auto.
    apply extends_bind; [apply extends_refl |].
    intros [s1 | s1]; [apply IH; lia | apply extends_refl].
Qed.

Lemma while_done {S} (cond : S -> bool) (body : S -> M W (Step S)) f s w :
  cond s = false -> while f cond body s w = Some (Ok s, w, []).
Proof. intros H. destruct f; simpl; now rewrite H. Qed.

Lemma for_of_app {A} (body : A -> M W unit) xs ys w w1 t1 :
  for_of xs body w = Some (Ok tt, w1, t1) ->
  for_of (xs ++ ys) body w =
    match for_of ys body w1 with
    | None => None
    | Some (r, w2, t2) => Some (r, w2, t1 ++ t2)
    end.
Proof.
  revert w w1 t1. induction xs as [| x xs IH]; intros w w1 t1; simpl.
  - unfold ret. intros [= <- <-]. destruct (for_of ys body w) as [[[r w2] t2] |]; auto.
  - intros H. apply bind_inv in H as [(e & _ & [=]) | (a & w0 & t0 & t2 & Hx & Hxs & ->)].
    rewrite (bind_ok _ _ _ Hx), (IH _ _ _ Hxs).
    destruct (for_of ys body w1) as [[[r w2] t2'] |]; auto.
    now rewrite app_assoc.
Qed.

End MonadFacts.

(** * Facts about arrays *)

Lemma len_app {A} (l1 l2 : list A) : len (l1 ++ l2) = len l1 + len l2.
Proof. unfold len. rewrite length_app. lia. Qed.

Lemma len_nonneg {A} (l : list A) : 0 <= len l.
Proof. unfold len. lia. Qed.

Lemma len_nil_iff {A} (l : list A) : len l = 0 <-> l = [].
Proof.
  unfold len. split; [| now intros ->].
  destruct l; [easy | simpl; lia].
Qed.

Lemma len_map {A B} (f : A -> B) (l : list A) : len (map f l) = len l.
Proof. unfold len. now rewrite length_map. Qed.

(** * The paging loop *)

Section PagingFacts.
Context {W : Type}.
Variable client : SuiClient W.
Variable address : Address.
Variable tokenAddress : TokenType.

#[local] Abbreviation body := (paging_body client address tokenAddress).
#[local] Abbreviation request cur :=
  (Rpc (ReqGetCoins (getCoinsParams address tokenAddress cur))).
#[local] Abbreviation page_at := (page_at client address tokenAddress).
#[local] Abbreviation fetched := (fetched client address tokenAddress).

(** One turn of the loop, by the answer of the node. *)
Lemma paging_turn f st w :
  hasMore st = true ->
  while (S f) hasMore body st w =
    match getCoins client (getCoinsParams address tokenAddress (cursor st)) w with
    | (Throw e, w1) => Some (Throw e, w1, [request (cursor st)])
    | (Ok page, w1) =>
        let acc := allCoins st ++ ids_of page in
        if 5000 <=? len acc then
          Some (Ok {| allCoins := acc; cursor := cursor st; hasMore := hasMore st |}, w1,
                [request (cursor st); ConsoleLog (FetchedStopping (len acc))])
        else
          match while f hasMore body
                  {| allCoins := acc; cursor := nextCursor page;
                     hasMore := hasNextPage page |} w1 with
          | None => None
          | Some (r, w2, t2) => Some (r, w2, request (cursor st) :: t2)
          end
    end.
Proof.
  intros Hmore. simpl. rewrite Hmore.
  unfold paging_body, bind, call, ids_of.
  destruct (getCoins client _ w) as [[page | e] w1]; auto.
  destruct (5000 <=? len _); simpl; [now rewrite Hmore |].
  match goal with
  | |- context [while f ?c ?b ?s w1] => destruct (while f c b s w1) as [[[r w2] t2] |]
  end; auto.
Qed.

Lemma page_at_S k cur w page w1 :
  getCoins client (getCoinsParams address tokenAddress cur) w = (Ok page, w1) ->
  page_at (S k) cur w = page_at k (nextCursor page) w1.
Proof. intros H. simpl. now rewrite H. Qed.

Lemma page_at_O cur w :
  page_at 0 cur w = fst (getCoins client (getCoinsParams address tokenAddress cur) w).
Proof. simpl. now destruct (getCoins client _ w). Qed.

Lemma fetched_S n cur w page w1 :
  getCoins client (getCoinsParams address tokenAddress cur) w = (Ok page, w1) ->
  fetched (S n) cur w = ids_of page ++ fetched n (nextCursor page) w1.
Proof. intros H. simpl. now rewrite H. Qed.

(** The pages fetched so far and the next one. *)
Lemma fetched_snoc n : forall cur w page,
  page_at n cur w = Ok page ->
  fetched (S n) cur w = fetched n cur w ++ ids_of page.
Proof.
  induction n as [| n IH]; intros cur w page H.
  - simpl in *.
    destruct (getCoins client _ w) as [[p | e] w1]; [injection H as -> | discriminate].
    now rewrite app_nil_r.
  - destruct (getCoins client (getCoinsParams address tokenAddress cur) w)
      as [[p | e] w1] eqn:G.
    + rewrite (page_at_S _ _ _ G) in H.
      rewrite (fetched_S _ _ _ G), (IH _ _ _ H), (fetched_S _ _ _ G).
      now rewrite app_assoc.
    + simpl in H. rewrite G in H. discriminate.
Qed.

(** What a finished run of the loop has done: it asked for pages [0..n],
    all answered, every one but the last announced a successor and left
    the count below the cap, and the last one either reached the cap or
    announced no successor.  The result is all of them, in order. *)
Lemma paging_finished : forall f st w st' w' t,
  hasMore st = true ->
  while f hasMore body st w = Some (Ok st', w', t) ->
  exists n page,
    page_at n (cursor st) w = Ok page /\
    allCoins st' = allCoins st ++ fetched (S n) (cursor st) w /\
    (forall k, (k < n)%nat ->
       exists p, page_at k (cursor st) w = Ok p /\ hasNextPage p = true /\
                 len (allCoins st ++ fetched (S k) (cursor st) w) < 5000) /\
    (5000 <= len (allCoins st') \/ hasNextPage page = false) /\
    page_requests t = Z.of_nat (S n).
Proof.
  induction f as [| f IH]; intros st w st' w' t Hmore H.
  - simpl in H. rewrite Hmore in H. discriminate.
  - rewrite paging_turn in H by assumption.
    destruct (getCoins client _ w) as [[page | e] w1] eqn:G; [| discriminate].
    cbv zeta in H. destruct (5000 <=? len _) eqn:Cap.
    + injection H as <- <- <-. exists 0%nat, page. simpl. rewrite G. simpl.
      rewrite app_nil_r. repeat split; auto; lia.
    + apply Z.leb_gt in Cap.
      destruct (hasNextPage page) eqn:Next.
      * destruct (while f _ _ _ w1) as [[[r w2] t2] |] eqn:Loop; [| discriminate].
        injection H as -> <- <-.
        apply IH in Loop as (n & p & Hp & Hacc & Hbefore & Hstop & Hreq); [| easy].
        simpl in Hp, Hacc, Hbefore.
        exists (S n), p. rewrite (page_at_S _ _ _ G), (fetched_S _ _ _ G).
        repeat split.
        -- exact Hp.
        -- rewrite Hacc. now rewrite <- app_assoc.
        -- intros [| k] Hk.
           ++ exists page. rewrite page_at_O, G. simpl. rewrite G, app_nil_r. auto.
           ++ destruct (Hbefore k) as (q & Hq & Hnext & Hlen); [lia |].
              exists q. rewrite (page_at_S _ _ _ G), (fetched_S _ _ _ G), app_assoc. auto.
        -- exact Hstop.
        -- unfold page_requests in *. simpl. unfold len in *. simpl. lia.
      * rewrite while_done in H by reflexivity.
        injection H as <- <- <-. exists 0%nat, page. simpl. rewrite G. simpl.
        rewrite app_nil_r. repeat split; auto; lia.
Qed.

(** The loop ends with an error exactly when a request fails. *)
Lemma paging_failed : forall n f st w e,
  hasMore st = true ->
  page_at n (cursor st) w = Throw e ->
  (forall k, (k < n)%nat ->
     exists p, page_at k (cursor st) w = Ok p /\ hasNextPage p = true /\
               len (allCoins st ++ fetched (S k) (cursor st) w) < 5000) ->
  (n < f)%nat ->
  exists w' t,
    while f hasMore body st w = Some (Throw e, w', t) /\
    page_requests t = Z.of_nat (S n).
Proof.
  induction n as [| n IH]; intros f st w e Hmore Hfail Hbefore Hf;
    (destruct f as [| f]; [lia |]); rewrite paging_turn by assumption.
  - rewrite page_at_O in Hfail.
    destruct (getCoins client _ w) as [[page | e'] w1]; simpl in Hfail; [discriminate |].
    injection Hfail as ->. now exists w1, [request (cursor st)].
  - destruct (Hbefore 0%nat) as (p0 & Hp0 & Hnext0 & Hlen0); [lia |].
    rewrite page_at_O in Hp0.
    destruct (getCoins client _ w) as [[page | e'] w1] eqn:G; simpl in Hp0; [| discriminate].
    injection Hp0 as ->. rewrite (fetched_S _ _ _ G) in Hlen0. simpl in Hlen0.
    rewrite app_nil_r in Hlen0. cbv zeta.
    apply Z.leb_gt in Hlen0. rewrite Hlen0.
    rewrite (page_at_S _ _ _ G) in Hfail.
    destruct (IH f {| allCoins := allCoins st ++ ids_of p0; cursor := nextCursor p0;
                      hasMore := hasNextPage p0 |} w1 e) as (w' & t & Hrun & Hreq);
      simpl; auto; try lia.
    + intros k Hk. destruct (Hbefore (S k)) as (q & Hq & Hnext & Hlen); [lia |].
      exists q. rewrite (page_at_S _ _ _ G), (fetched_S _ _ _ G), app_assoc in *. auto.
    + rewrite Hrun. exists w', (request (cursor st) :: t). split; auto.
      unfold page_requests in *. simpl. unfold len in *. simpl. lia.
Qed.

End PagingFacts.

(** * The listers *)

Section Listers.
Context {W : Type}.
Variable client : SuiClient W.
Variable address : Address.
Variable tokenAddress : TokenType.

#[local] Abbreviation body := (paging_body client address tokenAddress).
#[local] Abbreviation page_at := (page_at client address tokenAddress).
#[local] Abbreviation fetched := (fetched client address tokenAddress).
#[local] Abbreviation lister_error e :=
  (ConsoleError (Some (ErrorFetchingCoinObjectIds address)) e).

(** The lister, by the outcome of its loop. *)
Lemma lister_of_loop fuel w :
  getAllTokenObjectIds fuel client address tokenAddress w =
    match while fuel hasMore body paging_start w with
    | None => None
    | Some (Ok st, w1, t) => Some (Ok (allCoins st), w1, t)
    | Some (Throw e, w1, t) => Some (Ok [], w1, t ++ [lister_error e])
    end.
Proof.
  unfold getAllTokenObjectIds, paging_loop, try_catch, bind.
  destruct (while fuel hasMore body paging_start w) as [[[[st | e] w1] t] |]; simpl; auto.
  now rewrite app_nil_r.
Qed.

(** The lister never throws. *)
Lemma lister_returns fuel w r w' t :
  getAllTokenObjectIds fuel client address tokenAddress w = Some (r, w', t) ->
  exists ids, r = Ok ids.
Proof.
  rewrite lister_of_loop.
  destruct (while fuel _ _ _ w) as [[[[st | e] w1] t1] |]; try discriminate;
    intros [= <- _ _]; eauto.
Qed.

(** The loop ends when every page that announces a successor brings at
    least one coin: the count grows until the cap stops it. *)
Lemma paging_ends_growing : forall f st w,
  (forall k p, page_at k (cursor st) w = Ok p -> hasNextPage p = true -> data p <> []) ->
  hasMore st = true ->
  5000 - len (allCoins st) <= Z.of_nat f ->
  len (allCoins st) < 5000 ->
  exists r w' t, while f hasMore body st w = Some (r, w', t).
Proof.
  induction f as [| f IH]; intros st w Hgrow Hmore Hfuel Hlen; [lia |].
  rewrite paging_turn by assumption.
  destruct (getCoins client _ w) as [[page | e] w1] eqn:G; [| eauto].
  cbv zeta. destruct (5000 <=? len _) eqn:Cap; [eauto |].
  destruct (hasNextPage page) eqn:Next.
  - assert (Hne : data page <> []).
    { apply (Hgrow 0%nat); [| exact Next]. now rewrite page_at_O, G. }
    assert (0 < len (ids_of page)).
    { unfold ids_of. rewrite len_map. pose proof (len_nonneg (data page)).
      destruct (Z.eq_dec (len (data page)) 0) as [E | E]; [| lia].
      now apply len_nil_iff in E. }
    rewrite len_app in Cap.
    destruct (IH {| allCoins := allCoins st ++ ids_of page; cursor := nextCursor page;
                    hasMore := true |} w1) as (r & w' & t & Hrun); cbn [allCoins cursor hasMore]; auto.
    + intros k p Hp. apply (Hgrow (S k)). now rewrite (page_at_S _ _ _ _ _ _ G).
    + rewrite len_app. lia.
    + rewrite len_app. lia.
    + rewrite Hrun. eauto.
  - rewrite while_done by reflexivity. eauto.
Qed.

(** The loop ends when some page announces no successor. *)
Lemma paging_ends_at_last : forall k f st w p,
  page_at k (cursor st) w = Ok p -> hasNextPage p = false ->
  hasMore st = true -> (k < f)%nat ->
  exists r w' t, while f hasMore body st w = Some (r, w', t).
Proof.
  induction k as [| k IH]; intros f st w p Hp Hlast Hmore Hf;
    (destruct f as [| f]; [lia |]); rewrite paging_turn by assumption.
  - rewrite page_at_O in Hp.
    destruct (getCoins client _ w) as [[page | e] w1]; simpl in Hp; [| discriminate].
    injection Hp as ->. cbv zeta. destruct (5000 <=? len _); [eauto |].
    rewrite Hlast, while_done by reflexivity. eauto.
  - destruct (getCoins client _ w) as [[page | e] w1] eqn:G; [| eauto].
    cbv zeta. destruct (5000 <=? len _); [eauto |].
    rewrite (page_at_S _ _ _ _ _ _ G) in Hp.
    destruct (hasNextPage page) eqn:Next.
    + destruct (IH f {| allCoins := allCoins st ++ ids_of page; cursor := nextCursor page;
                        hasMore := true |} w1 p) as (r & w' & t & Hrun); cbn [allCoins cursor hasMore]; auto; [lia |].
      rewrite Hrun. eauto.
    + rewrite while_done by reflexivity. eauto.
Qed.

(** The loop never ends when every page is empty and announces a successor. *)
Lemma paging_stalls : forall f st w,
  (forall k, exists p, page_at k (cursor st) w = Ok p /\ data p = [] /\ hasNextPage p = true) ->
  hasMore st = true ->
  len (allCoins st) < 5000 ->
  while f hasMore body st w = None.
Proof.
  induction f as [| f IH]; intros st w Hstall Hmore Hlen.
  - simpl. now rewrite Hmore.
  - rewrite paging_turn by assumption.
    destruct (Hstall 0%nat) as (p & Hp & Hdata & Hnext). rewrite page_at_O in Hp.
    destruct (getCoins client _ w) as [[page | e] w1] eqn:G; simpl in Hp; [| discriminate].
    injection Hp as ->. cbv zeta. unfold ids_of. rewrite Hdata. simpl. rewrite app_nil_r.
    apply Z.leb_gt in Hlen. rewrite Hlen, Hnext.
    rewrite IH; auto; cbn [allCoins cursor hasMore]; [| lia].
    intros k. destruct (Hstall (S k)) as (q & Hq & Hq').
    exists q. now rewrite <- (page_at_S _ _ _ _ _ _ G).
Qed.

End Listers.

(** * Balance Lister *)

(** C8, as the code has it: when the remote call answers, [getOwnedTokens]
    returns the token type of every balance record of the answer, one for
    one and in the order served.  It neither removes repeated types nor
    leaves out records whose balance is zero; its result is free of
    repetitions, and free of zero balances, when the answer of the node is. *)
Theorem balance_lister_maps_answer {W} (client : SuiClient W) (address : Address)
    (w w1 : W) (allBalances : list CoinBalance) :
  getAllBalances client address w = (Ok allBalances, w1) ->
  exists tokens,
    getOwnedTokens client address w
      = Some (Ok tokens, w1, [Rpc (ReqGetAllBalances address)]) /\
    tokens = map coinType allBalances /\
    (forall b, In b allBalances -> In (coinType b) tokens) /\
    (NoDup (map coinType allBalances) -> NoDup tokens) /\
    (Forall (fun b => totalBalance b <> 0) allBalances ->
     forall token, In token tokens ->
       exists b, In b allBalances /\ coinType b = token /\ totalBalance b <> 0).
Proof.
  intros H. exists (map coinType allBalances). repeat split; auto.
  - unfold getOwnedTokens, try_catch, bind, call. now rewrite H.
  - intros b. apply in_map.
  - intros Hnz token Hin. apply in_map_iff in Hin as (b & Hb & Hin).
    exists b. repeat split; auto. rewrite Forall_forall in Hnz. now apply Hnz.
Qed.

Lemma balance_lister_maps_answer_witness :
  exists tokens,
    getOwnedTokens Sample.client "0xa11ce" (Sample.holding 3 50)
      = Some (Ok tokens, Sample.holding 3 50, [Rpc (ReqGetAllBalances "0xa11ce")]) /\
    tokens = ["0x2::sui::SUI"%string].
Proof.
  destruct (balance_lister_maps_answer Sample.client "0xa11ce"
              (Sample.holding 3 50) eq_refl) as (tokens & Hrun & Htokens & _).
  exists tokens. split; [exact Hrun | exact Htokens].
Defined.

(** C8 fails as stated: a type whose balance is zero is returned, and a
    type the node lists twice is returned twice. *)
Lemma balance_lister_keeps_zero_and_repeats :
  exists tokens w t,
    getOwnedTokens Sample.client "0xa11ce" Sample.odd_balances = Some (Ok tokens, w, t) /\
    Sample.balances Sample.odd_balances
      = Ok [ {| coinType := "0x2::sui::SUI"; coinObjectCount := 1; totalBalance := 0 |};
             {| coinType := "0xa::navx::NAVX"; coinObjectCount := 2; totalBalance := 7 |};
             {| coinType := "0xa::navx::NAVX"; coinObjectCount := 1; totalBalance := 3 |} ] /\
    In "0x2::sui::SUI"%string tokens /\
    ~ NoDup tokens.
Proof.
  eexists _, _, _. split; [reflexivity |]. split; [reflexivity |]. split.
  - now left.
  - intros Hnd. inversion Hnd as [| x l _ Hnd']. inversion Hnd' as [| y l' Hin _].
    apply Hin. now left.
Qed.

(** * Listers and errors *)

(** C4: whenever the remote call fails, either lister prints the error and
    returns an empty sequence.  For the Object Lister this holds at any
    page: if the first [n] pages are served (each announcing a successor,
    the count staying below the cap) and request [n] fails, the result is
    empty, not the [n] pages already fetched.  The Object Lister never
    passes an error on. *)
Theorem listers_swallow_errors {W} (client : SuiClient W) (address : Address)
    (tokenAddress : TokenType) (w : W) :
  (forall e w1,
     getAllBalances client address w = (Throw e, w1) ->
     getOwnedTokens client address w
       = Some (Ok [], w1,
               [Rpc (ReqGetAllBalances address);
                ConsoleError (Some (ErrorFetchingTokens address)) e])) /\
  (forall n e fuel,
     page_at client address tokenAddress n None w = Throw e ->
     (forall k, (k < n)%nat ->
        exists p, page_at client address tokenAddress k None w = Ok p /\
                  hasNextPage p = true /\
                  len (fetched client address tokenAddress (S k) None w) < 5000) ->
     (n < fuel)%nat ->
     exists w' t,
       getAllTokenObjectIds fuel client address tokenAddress w
         = Some (Ok [], w', t ++ [ConsoleError (Some (ErrorFetchingCoinObjectIds address)) e]) /\
       page_requests t = Z.of_nat (S n)) /\
  (forall fuel r w' t,
     getAllTokenObjectIds fuel client address tokenAddress w = Some (r, w', t) ->
     exists ids, r = Ok ids).
Proof.
  split; [| split].
  - intros e w1 H. unfold getOwnedTokens, try_catch, bind, call. now rewrite H.
  - intros n e fuel Hfail Hbefore Hfuel.
    destruct (@paging_failed _ client address tokenAddress n fuel paging_start w e)
      as (w' & t & Hrun & Hreq); auto.
    exists w', t. rewrite lister_of_loop, Hrun. auto.
  - intros fuel r w' t. apply lister_returns.
Qed.

Lemma listers_swallow_errors_witness :
  (getOwnedTokens Sample.client "0xa11ce" Sample.failing_third_page
     = Some (Ok [], Sample.failing_third_page,
             [Rpc (ReqGetAllBalances "0xa11ce");
              ConsoleError (Some (ErrorFetchingTokens "0xa11ce")) "balances unavailable"])) /\
  (len (fetched Sample.client "0xa11ce" "0x2::sui::SUI" 2 None Sample.failing_third_page) = 100 /\
   exists w' t,
     getAllTokenObjectIds 3 Sample.client "0xa11ce" "0x2::sui::SUI" Sample.failing_third_page
       = Some (Ok [], w',
               t ++ [ConsoleError (Some (ErrorFetchingCoinObjectIds "0xa11ce"))
                       "request timed out"]) /\
     page_requests t = 3).
Proof.
  pose proof (listers_swallow_errors Sample.client "0xa11ce" "0x2::sui::SUI"
                Sample.failing_third_page) as (Hbal & Hobj & _).
  split; [apply Hbal; reflexivity |]. split; [reflexivity |].
  apply (Hobj 2%nat); [reflexivity | | lia].
  intros [| [| k]] Hk; [| | lia]; eexists; (split; [reflexivity | split; [reflexivity |]]);
    vm_compute; reflexivity.
Defined.

(** * Object Lister: the cap *)

(** C1, as the code has it: a run of [getAllTokenObjectIds] that met no
    error asked for pages [0..n] and returns all of them, whole and in
    order.  It stopped at the first page that announced no successor or
    brought the count to 5000 or more, whichever came first.  The count
    was below 5000 before the last page, so the result holds fewer than
    5000 identifiers plus the size of the last page: at most 5049 when
    that page respects the limit of 50 asked for. *)
Theorem object_lister_stops_at_cap {W} (client : SuiClient W) (address : Address)
    (tokenAddress : TokenType) (fuel : nat) (w w' : W) r t :
  getAllTokenObjectIds fuel client address tokenAddress w = Some (r, w', t) ->
  (exists e t0,
     r = Ok [] /\
     t = t0 ++ [ConsoleError (Some (ErrorFetchingCoinObjectIds address)) e]) \/
  (exists n page,
     r = Ok (fetched client address tokenAddress (S n) None w) /\
     page_at client address tokenAddress n None w = Ok page /\
     (forall k, (k < n)%nat ->
        exists p, page_at client address tokenAddress k None w = Ok p /\
                  hasNextPage p = true /\
                  len (fetched client address tokenAddress (S k) None w) < 5000) /\
     (5000 <= len (fetched client address tokenAddress (S n) None w) \/
      hasNextPage page = false) /\
     len (fetched client address tokenAddress (S n) None w) < 5000 + len (data page) /\
     (len (data page) <= 50 ->
      len (fetched client address tokenAddress (S n) None w) <= 5049) /\
     page_requests t = Z.of_nat (S n)).
Proof.
  rewrite lister_of_loop.
  destruct (while fuel _ _ _ w) as [[[[st | e] w1] t1] |] eqn:Loop; try discriminate;
    intros [= <- <- <-].
  - right. apply paging_finished in Loop as (n & page & Hp & Hacc & Hbefore & Hstop & Hreq);
      [| reflexivity].
    unfold paging_start in Hp, Hacc, Hbefore.
    cbn [allCoins cursor app] in Hp, Hacc, Hbefore. rewrite Hacc in *.
    assert (Hlen : len (fetched client address tokenAddress (S n) None w)
                   < 5000 + len (data page)).
    { rewrite (fetched_snoc _ _ _ _ _ _ Hp), len_app. unfold ids_of. rewrite len_map.
      destruct n as [| n]; [cbn [fetched]; change (len (@nil ObjectId)) with 0; lia |].
      destruct (Hbefore n) as (q & _ & _ & Hq); lia. }
    exists n, page. repeat split; auto. lia.
  - left. now exists e, t1.
Qed.

Lemma object_lister_stops_at_cap_witness :
  exists ids w' t,
    getAllTokenObjectIds 5 Sample.client "0xa11ce" "0x2::sui::SUI" (Sample.holding 120 50)
      = Some (Ok ids, w', t) /\
    len ids = 120 /\ page_requests t = 3.
Proof.
  eexists _, _, _. split; [vm_compute; reflexivity |].
  destruct (object_lister_stops_at_cap Sample.client "0xa11ce" "0x2::sui::SUI" 5
              (Sample.holding 120 50) eq_refl)
    as [(e & t0 & Hr & _) | (n & page & _ & _ & _ & _ & _ & _ & _)];
    split; vm_compute; reflexivity.
Defined.

(** C1 fails as stated: from a node that serves 49 coins to a page, within
    the limit of 50 asked for, the lister returns 5047 identifiers. *)
Lemma object_lister_exceeds_cap :
  exists ids w' t,
    getAllTokenObjectIds 200 Sample.client "0xa11ce" "0x2::sui::SUI" Sample.short_pages
      = Some (Ok ids, w', t) /\
    len ids = 5047 /\ ~ len ids <= 5000 /\ page_requests t = 103.
Proof.
  eexists _, _, _. split; [vm_compute; reflexivity |].
  split; [vm_compute; reflexivity |]. split; [| vm_compute; reflexivity].
  vm_compute. intros H. now apply H.
Qed.

(** The scenario of the specification: 50 coins to a page and 5043 coins
    in all.  The lister returns 5000 and asks for 100 pages. *)
Example object_lister_full_pages :
  exists ids w' t,
    getAllTokenObjectIds 200 Sample.client "0xa11ce" "0x2::sui::SUI" (Sample.holding (100 * 50 + 43) 50)
      = Some (Ok ids, w', t) /\
    len ids = 5000 /\ page_requests t = 100.
Proof.
  eexists _, _, _. split; [vm_compute; reflexivity |].
  split; vm_compute; reflexivity.
Qed.

(** * Object Lister: termination *)

(** C10: the paging loop of [getAllTokenObjectIds] ends when every page
    that announces a successor brings at least one coin, and when some
    page announces no successor; it never ends when every page is empty
    and announces a successor. *)
Theorem paging_termination {W} (client : SuiClient W) (address : Address)
    (tokenAddress : TokenType) (w : W) :
  ((forall k p, page_at client address tokenAddress k None w = Ok p ->
                hasNextPage p = true -> data p <> []) \/
   (exists k p, page_at client address tokenAddress k None w = Ok p /\
                hasNextPage p = false) ->
   exists fuel ids w' t,
     getAllTokenObjectIds fuel client address tokenAddress w = Some (Ok ids, w', t)) /\
  ((forall k, exists p, page_at client address tokenAddress k None w = Ok p /\
                        data p = [] /\ hasNextPage p = true) ->
   forall fuel, getAllTokenObjectIds fuel client address tokenAddress w = None).
Proof.
  split.
  - intros H.
    assert (exists fuel r w' t,
              while fuel hasMore (paging_body client address tokenAddress) paging_start w
              = Some (r, w', t)) as (fuel & r & w' & t & Hrun).
    { destruct H as [Hgrow | (k & p & Hp & Hlast)].
      - exists (Z.to_nat 5000). apply paging_ends_growing; auto;
          unfold paging_start; cbn [allCoins]; change (len (@nil ObjectId)) with 0; lia.
      - exists (S k). apply paging_ends_at_last with (k := k) (p := p); auto. }
    exists fuel. rewrite lister_of_loop, Hrun. destruct r; eauto.
  - intros Hstall fuel. rewrite lister_of_loop, paging_stalls; auto.
    unfold paging_start; cbn [allCoins]; change (len (@nil ObjectId)) with 0; lia.
Qed.

Lemma page_at_endless (address : Address) (tokenAddress : TokenType) k cur :
  page_at Sample.client address tokenAddress k cur Sample.endless
    = Ok (Sample.page 0 50 true).
Proof. revert cur. induction k as [| k IH]; intros cur; [reflexivity | apply IH]. Qed.

Lemma page_at_stalling (address : Address) (tokenAddress : TokenType) k cur :
  page_at Sample.client address tokenAddress k cur Sample.stalling
    = Ok {| data := []; hasNextPage := true; nextCursor := None |}.
Proof. revert cur. induction k as [| k IH]; intros cur; [reflexivity | apply IH]. Qed.

Lemma paging_termination_witness :
  (exists fuel ids w' t,
     getAllTokenObjectIds fuel Sample.client "0xa11ce" "0x2::sui::SUI" Sample.endless
       = Some (Ok ids, w', t)) /\
  (exists fuel ids w' t,
     getAllTokenObjectIds fuel Sample.client "0xa11ce" "0x2::sui::SUI" (Sample.holding 120 50)
       = Some (Ok ids, w', t)) /\
  (forall fuel,
     getAllTokenObjectIds fuel Sample.client "0xa11ce" "0x2::sui::SUI" Sample.stalling = None).
Proof.
  split; [| split].
  - apply (proj1 (paging_termination Sample.client "0xa11ce" "0x2::sui::SUI" Sample.endless)).
    left. intros k p. rewrite page_at_endless. intros [= <-] _. discriminate.
  - apply (proj1 (paging_termination Sample.client "0xa11ce" "0x2::sui::SUI"
                    (Sample.holding 120 50))).
    right. exists 2%nat. eexists. split; reflexivity.
  - apply (proj2 (paging_termination Sample.client "0xa11ce" "0x2::sui::SUI" Sample.stalling)).
    intros k. eexists. rewrite page_at_stalling. repeat split.
Defined.

(** * Batches *)

Section ChunkFacts.
Context {A : Type}.
Implicit Types (l : list A) (b f : nat).

Lemma chunks_nil f b : chunks f b (@nil A) = [].
Proof. now destruct f. Qed.

Lemma chunks_cons f b x l :
  chunks (S f) b (x :: l) = firstn b (x :: l) :: chunks f b (skipn b (x :: l)).
Proof. reflexivity. Qed.

Lemma chunks_empty_iff f b l :
  (length l <= f)%nat -> (chunks f b l = [] <-> l = []).
Proof.
  intros Hf. split; [| intros ->; apply chunks_nil].
  destruct l as [| x l]; [easy |]. destruct f; [cbn [length] in Hf; lia | discriminate].
Qed.

(** Enough fuel is as good as the length of the list. *)
Lemma chunks_enough : forall f1 f2 b l,
  (1 <= b)%nat -> (length l <= f1)%nat -> (length l <= f2)%nat ->
  chunks f1 b l = chunks f2 b l.
Proof.
  induction f1 as [| f1 IH]; intros f2 b l Hb H1 H2.
  - destruct l; [now rewrite !chunks_nil | cbn [length] in H1; lia].
  - destruct l as [| x l]; [now rewrite !chunks_nil |].
    destruct f2 as [| f2]; [cbn [length] in H2; lia |].
    rewrite !chunks_cons. f_equal.
    assert (Hs : (length (skipn b (x :: l)) <= length l)%nat).
    { rewrite length_skipn. cbn [length]. lia. }
    cbn [length] in H1, H2. apply IH; lia.
Qed.

Lemma chunks_fuel f b l :
  (1 <= b)%nat -> (length l <= f)%nat -> chunks f b l = contiguous_batches (Z.of_nat b) l.
Proof.
  intros Hb Hf. unfold contiguous_batches. rewrite Nat2Z.id.
  now apply chunks_enough.
Qed.

(** The batches are the sequence, cut. *)
Lemma chunks_concat : forall f b l,
  (1 <= b)%nat -> (length l <= f)%nat -> concat (chunks f b l) = l.
Proof.
  induction f as [| f IH]; intros b l Hb Hf.
  - destruct l; [reflexivity | cbn [length] in Hf; lia].
  - destruct l as [| x l]; [reflexivity |].
    rewrite chunks_cons. cbn [concat]. rewrite IH; [apply firstn_skipn | lia |].
    rewrite length_skipn. cbn [length] in *. lia.
Qed.

Lemma chunks_sizes : forall f b l,
  (1 <= b)%nat -> Forall (fun c => (1 <= length c <= b)%nat) (chunks f b l).
Proof.
  induction f as [| f IH]; intros b l Hb; [constructor |].
  destruct l as [| x l]; [constructor |].
  rewrite chunks_cons. constructor; [| now apply IH].
  rewrite length_firstn. cbn [length]. lia.
Qed.

(** Every batch but the last is full. *)
Lemma chunks_full : forall f b l,
  (1 <= b)%nat -> (length l <= f)%nat ->
  Forall (fun c => length c = b) (removelast (chunks f b l)).
Proof.
  induction f as [| f IH]; intros b l Hb Hf; [constructor |].
  destruct l as [| x l]; [constructor |].
  rewrite chunks_cons.
  assert (Hs : (length (skipn b (x :: l)) <= f)%nat).
  { rewrite length_skipn. cbn [length] in *. lia. }
  destruct (chunks f b (skipn b (x :: l))) as [| c later] eqn:E; [constructor |].
  change (removelast (firstn b (x :: l) :: c :: later))
    with (firstn b (x :: l) :: removelast (c :: later)).
  constructor; [| rewrite <- E; now apply IH].
  assert (skipn b (x :: l) <> []).
  { intros Hnil. rewrite Hnil, chunks_nil in E. discriminate. }
  rewrite length_firstn.
  destruct (Nat.le_gt_cases (length (x :: l)) b) as [Hle | Hgt]; [| lia].
  now rewrite skipn_all2 in H.
Qed.

(** There are [ceil (N / b)] batches. *)
Lemma chunks_count : forall f b l,
  (1 <= b)%nat -> (length l <= f)%nat ->
  len (chunks f b l) = ceil_div (len l) (Z.of_nat b).
Proof.
  unfold ceil_div.
  induction f as [| f IH]; intros b l Hb Hf.
  - destruct l; [| cbn [length] in Hf; lia].
    change (len (@nil A)) with 0. change (len (chunks 0 b [])) with 0.
    symmetry. apply Z.div_small. lia.
  - destruct l as [| x l].
    + change (len (@nil A)) with 0. change (len (chunks (S f) b [])) with 0.
      symmetry. apply Z.div_small. lia.
    + rewrite chunks_cons.
      assert (Hs : (length (skipn b (x :: l)) <= f)%nat).
      { rewrite length_skipn. cbn [length] in *. lia. }
      assert (Hc : len (firstn b (x :: l) :: chunks f b (skipn b (x :: l)))
                   = 1 + len (chunks f b (skipn b (x :: l)))).
      { unfold len. cbn [length]. lia. }
      rewrite Hc, IH by assumption.
      assert (Hlen : len (skipn b (x :: l)) = Z.max (len (x :: l) - Z.of_nat b) 0).
      { unfold len. rewrite length_skipn. lia. }
      rewrite Hlen.
      assert (Hpos : 0 < len (x :: l)) by (unfold len; cbn [length]; lia).
      generalize dependent (len (x :: l)). intros N; intros.
      destruct (Z.le_gt_cases N (Z.of_nat b)) as [Hle | Hgt].
      * rewrite Z.max_r by lia. rewrite (Z.div_small (0 + _ - 1)) by lia.
        apply Z.div_unique with (r := N - 1); lia.
      * rewrite Z.max_l by lia.
        replace (N + Z.of_nat b - 1)
          with (N - Z.of_nat b + Z.of_nat b - 1 + 1 * Z.of_nat b) by lia.
        rewrite Z.div_add by lia. lia.
Qed.

End ChunkFacts.

(** * The batching loop *)

(** Inside the array and with a positive size, the batch at [i] is the next
    [batchSize] elements from [i] on, or what is left of them. *)
Lemma batch_at_firstn (ids : list ObjectId) (batchSize i : Z) :
  0 < batchSize -> 0 <= i < len ids ->
  batch_at ids batchSize i = firstn (Z.to_nat batchSize) (skipn (Z.to_nat i) ids).
Proof.
  intros HB Hi. unfold batch_at, slice, relative_index.
  replace (i <? 0) with false by lia.
  replace (Z.min (i + batchSize) (len ids) <? 0) with false by lia.
  rewrite (Z.min_l i) by lia.
  rewrite (Z.min_l (Z.min _ _) (len ids)) by lia.
  destruct (Z.le_gt_cases (i + batchSize) (len ids)) as [Hle | Hgt].
  - rewrite Z.min_l by lia. f_equal. lia.
  - rewrite Z.min_r by lia.
    assert (Hrest : length (skipn (Z.to_nat i) ids) = Z.to_nat (len ids - i)).
    { rewrite length_skipn. unfold len. lia. }
    rewrite !firstn_all2; auto; lia.
Qed.

(** A batch holds identifiers of the array only. *)
Lemma batch_at_In (ids : list ObjectId) (batchSize i : Z) id :
  In id (batch_at ids batchSize i) -> In id ids.
Proof.
  unfold batch_at, slice. intros H.
  rewrite <- (firstn_skipn (Z.to_nat (relative_index (len ids) i)) ids).
  apply in_or_app. right.
  match type of H with
  | In _ (firstn ?n ?l) => rewrite <- (firstn_skipn n l)
  end.
  apply in_or_app. now left.
Qed.

(** * Building a transaction *)

Section BuildFacts.
Context {W : Type}.
Variable sdk : Sdk W.

Lemma merge_into_ok primaryCoin others :
  (forall id, In id others -> checkObjectId sdk id = Ok tt) ->
  merge_into sdk primaryCoin others
    = Ok (map (fun id => MergeCoins primaryCoin [TxObject id]) others).
Proof.
  induction others as [| id others IH]; intros Hall; [reflexivity |].
  cbn [merge_into map]. unfold txb_object. rewrite (Hall id) by now left.
  rewrite IH; [reflexivity |]. intros id' Hin. apply Hall. now right.
Qed.

Lemma merge_into_inv primaryCoin others :
  match merge_into sdk primaryCoin others with
  | Ok commands => commands = map (fun id => MergeCoins primaryCoin [TxObject id]) others
  | Throw e => exists id, In id others /\ checkObjectId sdk id = Throw e
  end.
Proof.
  induction others as [| id others IH]; [reflexivity |].
  cbn [merge_into map]. unfold txb_object.
  destruct (checkObjectId sdk id) as [u | e] eqn:Hid.
  - destruct (merge_into sdk primaryCoin others) as [commands | e].
    + now rewrite IH.
    + destruct IH as (id' & Hin & He). exists id'. split; [now right | exact He].
  - exists id. split; [now left | exact Hid].
Qed.

(** When [txb.object] accepts every identifier of the batch, the
    transaction built is the one that merges the batch into its first
    object. *)
Lemma build_merge_ok batch :
  (forall id, In id batch -> checkObjectId sdk id = Ok tt) ->
  build_merge sdk batch = Ok (merge_transaction batch).
Proof.
  destruct batch as [| target others]; [reflexivity |]. intros Hall.
  cbn [build_merge merge_transaction]. unfold txb_object.
  rewrite (Hall target) by now left.
  apply merge_into_ok. intros id Hin. apply Hall. now right.
Qed.

(** A transaction that was built is that one, and a building that threw
    met an identifier [txb.object] refuses. *)
Lemma build_merge_inv batch :
  match build_merge sdk batch with
  | Ok txb => txb = merge_transaction batch
  | Throw e => exists id, In id batch /\ checkObjectId sdk id = Throw e
  end.
Proof.
  destruct batch as [| target others]; [reflexivity |].
  cbn [build_merge merge_transaction]. unfold txb_object.
  destruct (checkObjectId sdk target) as [u | e] eqn:Htarget.
  - pose proof (merge_into_inv (TxObject target) others) as H.
    destruct (merge_into sdk (TxObject target) others) as [commands | e]; [exact H |].
    destruct H as (id & Hin & He). exists id. split; [now right | exact He].
  - exists target. split; [now left | exact Htarget].
Qed.

End BuildFacts.

Section BatchFacts.
Context {W : Type}.
Variable sdk : Sdk W.
Variable client : SuiClient W.
Variable keyPair : Keypair.
Variable ids : list ObjectId.
Variable batchSize : Z.

#[local] Abbreviation loop fuel := (batch_loop sdk fuel client keyPair ids batchSize).
#[local] Abbreviation submit batch :=
  (ReqSignAndExecute (executeParams keyPair (merge_transaction batch))).

(** One turn of the loop, by what the builder and the node answer. *)
Lemma batch_turn f i w :
  i < len ids ->
  loop (S f) i w =
    let batch := batch_at ids batchSize i in
    if 1 <? len batch then
      match build_merge sdk batch with
      | Throw e => Some (Throw e, w, [])
      | Ok txb =>
          match signAndExecuteTransaction client (executeParams keyPair txb) w with
          | (Throw e, w1) =>
              Some (Throw e, w1, [Rpc (ReqSignAndExecute (executeParams keyPair txb))])
          | (Ok result, w1) =>
              match loop f (i + batchSize) w1 with
              | None => None
              | Some (r, w2, t2) =>
                  Some (r, w2,
                        Rpc (ReqSignAndExecute (executeParams keyPair txb))
                          :: ConsoleLog (BatchMerged (i / batchSize + 1) (digest result))
                          :: (if i + batchSize <? len ids then [SetTimeout 1000] else [])
                          ++ t2)
              end
          end
      end
    else loop f (i + batchSize) w.
Proof.
  intros Hi. unfold batch_loop. cbn [while].
  replace (i <? len ids) with true by lia.
  unfold batch_body at 1. cbv zeta.
  destruct (1 <? len (batch_at ids batchSize i)).
  - unfold bind, call, emit, when, ret, lift.
    destruct (build_merge sdk (batch_at ids batchSize i)) as [txb | e]; auto.
    destruct (signAndExecuteTransaction client _ w) as [[result | e] w1]; auto.
    destruct (i + batchSize <? len ids); cbn [app];
      match goal with
      | |- context [while f ?c ?b ?s w1] =>
          destruct (while f c b s w1) as [[[r w2] t2] |]
      end; auto.
  - unfold bind, ret.
    match goal with
    | |- context [while f ?c ?b ?s w] => destruct (while f c b s w) as [[[r w2] t2] |]
    end; auto.
Qed.

(** The same turn when [txb.object] accepts the identifiers of the batch. *)
Lemma batch_turn_built f i w :
  i < len ids ->
  (forall id, In id ids -> checkObjectId sdk id = Ok tt) ->
  loop (S f) i w =
    let batch := batch_at ids batchSize i in
    if 1 <? len batch then
      match signAndExecuteTransaction client
              (executeParams keyPair (merge_transaction batch)) w with
      | (Throw e, w1) => Some (Throw e, w1, [Rpc (submit batch)])
      | (Ok result, w1) =>
          match loop f (i + batchSize) w1 with
          | None => None
          | Some (r, w2, t2) =>
              Some (r, w2,
                    Rpc (submit batch)
                      :: ConsoleLog (BatchMerged (i / batchSize + 1) (digest result))
                      :: (if i + batchSize <? len ids then [SetTimeout 1000] else [])
                      ++ t2)
          end
      end
    else loop f (i + batchSize) w.
Proof.
  intros Hi Hbuilt. rewrite batch_turn by assumption. cbv zeta.
  rewrite build_merge_ok; [reflexivity |].
  intros id Hin. apply Hbuilt. now apply batch_at_In in Hin.
Qed.

Lemma batch_loop_done f i w :
  len ids <= i -> loop f i w = Some (Ok i, w, []).
Proof. intros Hi. unfold batch_loop. apply while_done. lia. Qed.

(** With a positive batch size the loop ends, whatever the builder and
    the node answer. *)
Lemma batch_loop_ends :
  0 < batchSize ->
  forall f i w, 0 <= i -> len ids - i <= Z.of_nat f ->
  exists r w' t, loop f i w = Some (r, w', t).
Proof.
  intros HB. induction f as [| f IH]; intros i w Hi Hf.
  - rewrite batch_loop_done by lia. eauto.
  - destruct (Z.le_gt_cases (len ids) i) as [Hout | Hin].
    + rewrite batch_loop_done by lia. eauto.
    + rewrite batch_turn by lia. cbv zeta.
      destruct (1 <? len _).
      * destruct (build_merge sdk _) as [txb | e]; [| eauto].
        destruct (signAndExecuteTransaction client _ w) as [[result | e] w1]; [| eauto].
        destruct (IH (i + batchSize) w1) as (r & w' & t & Hrun); try lia.
        rewrite Hrun. eauto.
      * apply IH; lia.
Qed.

(** With batch size 0 the index stays where it is and the loop goes on. *)
Lemma batch_body_stuck w :
  batchSize = 0 ->
  batch_body sdk client keyPair ids batchSize 0 w = Some (Ok (Continue 0), w, []).
Proof.
  intros ->. unfold batch_body, batch_at, slice, relative_index.
  pose proof (len_nonneg ids).
  replace (Z.min (0 + 0) (len ids)) with 0 by lia.
  replace (Z.min 0 (len ids)) with 0 by lia.
  reflexivity.
Qed.

Lemma batch_loop_stuck :
  batchSize = 0 -> 0 < len ids -> forall f w, loop f 0 w = None.
Proof.
  intros HB Hlen. induction f as [| f IH]; intros w; unfold batch_loop in *; cbn [while];
    replace (0 <? len ids) with true by lia; [reflexivity |].
  unfold bind at 1. rewrite batch_body_stuck by assumption. now rewrite IH.
Qed.

(** When [txb.object] accepts the identifiers and the node accepts every
    transaction (in the states [accepting] singles out, which submissions
    do not leave), the loop carries out the plan of the batches that
    remain. *)
Lemma batch_loop_plan (accepting : W -> Prop) :
  0 < batchSize ->
  (forall id, In id ids -> checkObjectId sdk id = Ok tt) ->
  (forall p w, accepting w ->
     exists result w1,
       signAndExecuteTransaction client p w = (Ok result, w1) /\ accepting w1) ->
  forall f i w, accepting w -> 0 <= i -> len ids - i <= Z.of_nat f ->
  exists i' w' t,
    loop f i w = Some (Ok i', w', t) /\
    actions t = plan (chunks f (Z.to_nat batchSize) (skipn (Z.to_nat i) ids)).
Proof.
  intros HB Hbuilt Haccept. induction f as [| f IH]; intros i w Hw Hi Hf.
  - rewrite batch_loop_done by lia. exists i, w, []. auto.
  - destruct (Z.le_gt_cases (len ids) i) as [Hout | Hin].
    + rewrite batch_loop_done by lia. exists i, w, []. split; auto.
      rewrite skipn_all2 by (unfold len in Hout; lia). reflexivity.
    + rewrite batch_turn_built by (assumption || lia). cbv zeta.
      rewrite batch_at_firstn by lia.
      destruct (skipn (Z.to_nat i) ids) as [| x rest] eqn:Erest.
      { apply (f_equal (@length _)) in Erest. rewrite length_skipn in Erest.
        unfold len in Hin. cbn [length] in Erest. lia. }
      rewrite chunks_cons, <- Erest, skipn_skipn.
      replace (Z.to_nat batchSize + Z.to_nat i)%nat with (Z.to_nat (i + batchSize)) by lia.
      assert (Hlater : (i + batchSize <? len ids) = true <->
                       chunks f (Z.to_nat batchSize) (skipn (Z.to_nat (i + batchSize)) ids)
                       <> []).
      { rewrite chunks_empty_iff by (rewrite length_skipn; unfold len in *; lia).
        rewrite Z.ltb_lt. split.
        - intros Hlt Hnil. apply (f_equal (@length _)) in Hnil.
          rewrite length_skipn in Hnil. unfold len in Hlt. cbn [length] in Hnil. lia.
        - intros Hne. destruct (Z.lt_ge_cases (i + batchSize) (len ids)); auto.
          exfalso. apply Hne. apply skipn_all2. unfold len in *. lia. }
      cbn [plan].
      destruct (1 <? len _).
      * destruct (Haccept (executeParams keyPair
                             (merge_transaction (firstn (Z.to_nat batchSize)
                                                   (skipn (Z.to_nat i) ids)))) w Hw)
          as (result & w1 & Hok & Hw1).
        rewrite Hok.
        destruct (IH (i + batchSize) w1) as (i' & w' & t & Hrun & Hplan); try lia; auto.
        rewrite Hrun. eexists _, _, _. split; [reflexivity |].
        unfold actions in *. cbn [flat_map action_of app]. rewrite flat_map_app, Hplan.
        f_equal. unfold executeParams. cbn [transaction]. f_equal.
        destruct (chunks f _ _) as [| c later];
          destruct (i + batchSize <? len ids); try reflexivity.
        -- destruct Hlater as [Hl _]. now destruct Hl.
        -- destruct Hlater as [_ Hl]. discriminate Hl. discriminate.
      * destruct (IH (i + batchSize) w) as (i' & w' & t & Hrun & Hplan); try lia; auto.
        rewrite Hrun. eauto.
Qed.

End BatchFacts.

(** * Counting what a plan does *)

Lemma actions_app t1 t2 : actions (t1 ++ t2) = actions t1 ++ actions t2.
Proof. apply flat_map_app. Qed.

Lemma submitted_plan (batches : list (list ObjectId)) :
  flat_map (fun a => match a with Submitted tx => [tx] | Waited _ => [] end) (plan batches)
    = map merge_transaction (filter (fun batch => 1 <? len batch) batches).
Proof.
  induction batches as [| batch later IH]; [reflexivity |].
  cbn [plan filter]. rewrite flat_map_app, IH.
  destruct (1 <? len batch); [| reflexivity].
  destruct later; reflexivity.
Qed.

Lemma submissions_plan (batches : list (list ObjectId)) :
  len (filter is_submission (plan batches))
    = len (filter (fun batch => 1 <? len batch) batches).
Proof.
  induction batches as [| batch later IH]; [reflexivity |].
  cbn [plan filter]. rewrite filter_app, len_app, IH.
  destruct (1 <? len batch); [| reflexivity].
  destruct later; unfold len; cbn [filter is_submission length app]; lia.
Qed.

Lemma plan_of_small (batches : list (list ObjectId)) :
  Forall (fun c => (length c <= 1)%nat) batches -> plan batches = [].
Proof.
  induction 1 as [| batch later Hsmall _ IH]; [reflexivity |].
  cbn [plan]. rewrite IH. replace (1 <? len batch) with false; [reflexivity |].
  unfold len. lia.
Qed.

Lemma few_make_small_batches {A} (batchSize : Z) (l : list A) :
  len l <= 1 ->
  Forall (fun c => (length c <= 1)%nat) (contiguous_batches batchSize l).
Proof.
  intros Hfew. unfold contiguous_batches.
  destruct l as [| x [| y rest]];
    [constructor | | unfold len in Hfew; cbn [length] in Hfew; lia].
  cbn [length chunks]. constructor; [| constructor].
  rewrite length_firstn. cbn [length]. lia.
Qed.

Lemma large_or_single {A} (batches : list (list A)) :
  Forall (fun c => (1 <= length c)%nat) batches ->
  len (filter (fun batch => 1 <? len batch) batches)
    = len batches - len (filter (fun batch => len batch =? 1) batches).
Proof.
  induction 1 as [| batch later Hne _ IH]; [reflexivity |].
  cbn [filter]. unfold len in *.
  destruct (Z.of_nat (length batch) =? 1) eqn:E1;
    [replace (1 <? Z.of_nat (length batch)) with false by lia
    | replace (1 <? Z.of_nat (length batch)) with true by lia];
    cbn [length]; lia.
Qed.

(** With batches of two or more, only the remainder can be a single
    element, and it is one exactly when [N mod b = 1]. *)
Lemma singles_of_chunks {A} : forall f b (l : list A),
  (2 <= b)%nat -> (length l <= f)%nat ->
  len (filter (fun batch => len batch =? 1) (chunks f b l))
    = if len l mod Z.of_nat b =? 1 then 1 else 0.
Proof.
  induction f as [| f IH]; intros b l Hb Hf.
  - destruct l; [| cbn [length] in Hf; lia].
    change (len (@nil A)) with 0. rewrite Z.mod_0_l by lia. reflexivity.
  - destruct l as [| x l].
    + change (len (@nil A)) with 0. rewrite Z.mod_0_l by lia. reflexivity.
    + rewrite chunks_cons. cbn [filter].
      destruct (Nat.le_gt_cases (length (x :: l)) b) as [Hle | Hgt].
      * rewrite skipn_all2, chunks_nil, firstn_all2 by assumption.
        assert (Hpos : 0 < len (x :: l)) by (unfold len; cbn [length]; lia).
        assert (HleZ : len (x :: l) <= Z.of_nat b) by (unfold len; lia).
        generalize dependent (len (x :: l)). intros N; intros.
        destruct (Z.eq_dec N (Z.of_nat b)) as [-> | Hne].
        -- rewrite Z_mod_same_full.
           replace (Z.of_nat b =? 1) with false by lia. reflexivity.
        -- rewrite Z.mod_small by lia. now destruct (N =? 1).
      * assert (Hfirst : len (firstn b (x :: l)) = Z.of_nat b).
        { unfold len. rewrite length_firstn. lia. }
        rewrite Hfirst. replace (Z.of_nat b =? 1) with false by lia.
        rewrite IH; [| lia | rewrite length_skipn; cbn [length] in *; lia].
        assert (Hrest : len (skipn b (x :: l)) = len (x :: l) + (-1) * Z.of_nat b).
        { unfold len. rewrite length_skipn. lia. }
        rewrite Hrest, Z.mod_add by lia. reflexivity.
Qed.

(** With batches of two or more, a wait follows every batch but the last. *)
Lemma delays_of_chunks : forall f b (l : list ObjectId),
  (2 <= b)%nat -> (length l <= f)%nat -> l <> [] ->
  len (filter is_delay (plan (chunks f b l))) = len (chunks f b l) - 1.
Proof.
  induction f as [| f IH]; intros b l Hb Hf Hne.
  - destruct l; [easy | cbn [length] in Hf; lia].
  - destruct l as [| x l]; [easy |].
    rewrite chunks_cons. cbn [plan].
    destruct (chunks f b (skipn b (x :: l))) as [| c later] eqn:E.
    + destruct (1 <? len _); reflexivity.
    + assert (Hrest : skipn b (x :: l) <> []).
      { intros Hnil. rewrite Hnil, chunks_nil in E. discriminate. }
      assert (Hfirst : len (firstn b (x :: l)) = Z.of_nat b).
      { unfold len. rewrite length_firstn.
        destruct (Nat.le_gt_cases (length (x :: l)) b) as [Hle | Hgt]; [| lia].
        now rewrite skipn_all2 in Hrest. }
      rewrite Hfirst. replace (1 <? Z.of_nat b) with true by lia.
      rewrite filter_app, len_app, <- E.
      rewrite IH; auto; [| rewrite length_skipn; cbn [length] in *; lia].
      unfold len. cbn [filter is_delay length]. rewrite E. cbn [length]. lia.
Qed.

(** * Batch Merger *)

Section MergeFacts.
Context {W : Type}.
Variable sdk : Sdk W.

#[local] Abbreviation merge_error e := (ConsoleError (Some ErrorMergingCoins) e).

(** Listing submits nothing and waits for nothing. *)
Lemma paging_actions (client : SuiClient W) address tokenAddress :
  forall f st w r w' t,
    while f hasMore (paging_body client address tokenAddress) st w = Some (r, w', t) ->
    actions t = [].
Proof.
  induction f as [| f IH]; intros st w r w' t; destruct (hasMore st) eqn:Hmore.
  - simpl. now rewrite Hmore.
  - rewrite while_done by assumption. now intros [= _ _ <-].
  - rewrite paging_turn by assumption.
    destruct (getCoins client _ w) as [[page | e] w1]; [| now intros [= _ _ <-]].
    cbv zeta. destruct (5000 <=? len _); [now intros [= _ _ <-] |].
    destruct (while f _ _ _ w1) as [[[r2 w2] t2] |] eqn:Loop; [| discriminate].
    intros [= _ _ <-]. apply IH in Loop. exact Loop.
  - rewrite while_done by assumption. now intros [= _ _ <-].
Qed.

Lemma lister_actions (client : SuiClient W) address tokenAddress fuel w r w' t :
  getAllTokenObjectIds fuel client address tokenAddress w = Some (r, w', t) ->
  actions t = [].
Proof.
  rewrite lister_of_loop.
  destruct (while fuel _ _ _ w) as [[[[st | e] w1] t1] |] eqn:Loop; try discriminate;
    intros [= _ _ <-]; apply paging_actions in Loop; auto.
  now rewrite actions_app, Loop.
Qed.

Lemma lister_more_fuel (client : SuiClient W) address tokenAddress f f' :
  (f <= f')%nat ->
  extends (getAllTokenObjectIds f client address tokenAddress)
          (getAllTokenObjectIds f' client address tokenAddress).
Proof.
  intros Hle. apply extends_try_catch. apply extends_bind.
  - now apply while_more_fuel.
  - intros st. apply extends_refl.
Qed.

(** [mergeCoinObjects] once the key is read and the identifiers fetched. *)
Lemma merge_after_listing fuel privateKey tokenAddress batchSize rpcUrl keyPair
    (w w1 : W) ids t1 :
  fromSecretKey sdk privateKey = Ok keyPair ->
  getAllTokenObjectIds fuel (newSuiClient sdk rpcUrl) (toSuiAddress sdk keyPair)
    tokenAddress w = Some (Ok ids, w1, t1) ->
  mergeCoinObjects sdk fuel privateKey tokenAddress batchSize rpcUrl w =
    match merge_fetched sdk fuel (newSuiClient sdk rpcUrl) keyPair tokenAddress batchSize
            ids w1 with
    | None => None
    | Some (Ok u, w2, t2) => Some (Ok u, w2, t1 ++ t2)
    | Some (Throw e, w2, t2) => Some (Throw e, w2, (t1 ++ t2) ++ [merge_error e])
    end.
Proof.
  intros Hkey Hlist.
  unfold mergeCoinObjects, mergeCoinObjects_try, try_catch, bind, lift.
  rewrite Hkey. cbv zeta. rewrite Hlist.
  destruct (merge_fetched _ _ _ _ _ _ _ w1) as [[[[u | e] w2] t2] |]; reflexivity.
Qed.

Lemma merge_fetched_few fuel client keyPair tokenAddress batchSize ids (w : W) :
  len ids <= 1 ->
  merge_fetched sdk fuel client keyPair tokenAddress batchSize ids w
    = Some (Ok tt, w, [ConsoleLog NoCoinsNeedMerged]).
Proof. intros H. unfold merge_fetched. now replace (len ids <=? 1) with true by lia. Qed.

Lemma merge_fetched_many fuel client keyPair tokenAddress batchSize ids (w : W) :
  1 < len ids ->
  merge_fetched sdk fuel client keyPair tokenAddress batchSize ids w =
    match batch_loop sdk fuel client keyPair ids batchSize 0 w with
    | None => None
    | Some (Ok _, w2, t2) =>
        Some (Ok tt, w2,
              ConsoleLog (FoundObjects (len ids) tokenAddress) :: t2 ++ [ConsoleLog AllMerged])
    | Some (Throw e, w2, t2) =>
        Some (Throw e, w2, ConsoleLog (FoundObjects (len ids) tokenAddress) :: t2)
    end.
Proof.
  intros H. unfold merge_fetched. replace (len ids <=? 1) with false by lia.
  unfold bind, emit.
  destruct (batch_loop _ _ _ _ _ _ 0 w) as [[[[i | e] w2] t2] |]; reflexivity.
Qed.

(** A run whose identifiers [txb.object] accepts, on a node that accepts
    every transaction: it returns, and what it submitted and waited for is
    the plan of the contiguous batches. *)
Lemma merge_run (accepting : W -> Prop) fuel privateKey tokenAddress batchSize rpcUrl
    keyPair (w w1 : W) ids t1 :
  0 < batchSize ->
  fromSecretKey sdk privateKey = Ok keyPair ->
  (forall id, In id ids -> checkObjectId sdk id = Ok tt) ->
  (forall p w0, accepting w0 ->
     exists result w2,
       signAndExecuteTransaction (newSuiClient sdk rpcUrl) p w0 = (Ok result, w2) /\
       accepting w2) ->
  getAllTokenObjectIds fuel (newSuiClient sdk rpcUrl) (toSuiAddress sdk keyPair)
    tokenAddress w = Some (Ok ids, w1, t1) ->
  accepting w1 ->
  len ids <= Z.of_nat fuel ->
  exists w2 t,
    mergeCoinObjects sdk fuel privateKey tokenAddress batchSize rpcUrl w
      = Some (Ok tt, w2, t) /\
    actions t = plan (contiguous_batches batchSize ids).
Proof.
  intros HB Hkey Hbuilt Haccept Hlist Hw1 Hfuel.
  erewrite merge_after_listing by eassumption.
  assert (Hquiet : actions t1 = []) by (eapply lister_actions; eassumption).
  destruct (Z.le_gt_cases (len ids) 1) as [Hfew | Hmany].
  - rewrite merge_fetched_few by assumption. eexists _, _. split; [reflexivity |].
    rewrite actions_app, Hquiet. symmetry. apply plan_of_small.
    now apply few_make_small_batches.
  - rewrite merge_fetched_many by assumption.
    destruct (@batch_loop_plan _ sdk (newSuiClient sdk rpcUrl) keyPair ids batchSize
                accepting HB Hbuilt Haccept fuel 0 w1)
      as (i' & w2 & t2 & Hrun & Hplan); try lia; auto.
    rewrite Hrun. eexists _, _. split; [reflexivity |].
    change (ConsoleLog ?m :: ?t ++ ?u) with ([ConsoleLog m] ++ t ++ u).
    rewrite !actions_app, Hquiet, Hplan. cbn [actions flat_map action_of app].
    rewrite app_nil_r. change (Z.to_nat 0) with 0%nat. cbn [skipn].
    rewrite <- (Z2Nat.id batchSize) at 2 by lia.
    f_equal. apply chunks_fuel; unfold len in Hfuel; lia.
Qed.

End MergeFacts.

Lemma singles_of_unit_batches {A} (l : list A) : singletons 1 l = len l.
Proof.
  unfold singletons, contiguous_batches. change (Z.to_nat 1) with 1%nat.
  assert (Hall : Forall (fun c : list A => (1 <= length c <= 1)%nat)
                   (chunks (length l) 1 l)) by now apply chunks_sizes.
  assert (Hkeep : filter (fun batch : list A => len batch =? 1) (chunks (length l) 1 l)
                  = chunks (length l) 1 l).
  { induction Hall as [| c later Hc _ IH]; [reflexivity |].
    cbn [filter]. rewrite IH. replace (len c =? 1) with true; [reflexivity |].
    unfold len. lia. }
  rewrite Hkeep.
  rewrite chunks_count by lia. unfold ceil_div.
  change (Z.of_nat 1) with 1. rewrite Z.div_1_r. lia.
Qed.

Lemma plan_delays_fixed (batches : list (list ObjectId)) :
  Forall (fun a => is_delay a = true -> a = Waited 1000) (plan batches).
Proof.
  induction batches as [| batch later IH]; [constructor |].
  cbn [plan]. apply Forall_app. split; [| exact IH].
  destruct (1 <? len batch); [| constructor].
  constructor; [discriminate |]. destruct later; repeat constructor.
Qed.

(** The transaction of a batch merges every object after the first into
    the first, each by a command of its own, in the order of the batch. *)
Lemma merge_transaction_folds (first : ObjectId) (rest : list ObjectId) :
  Forall (fun c => destination_of c = TxObject first) (merge_transaction (first :: rest)) /\
  flat_map sources_of (merge_transaction (first :: rest)) = map TxObject rest.
Proof.
  cbn [merge_transaction]. split.
  - apply Forall_forall. intros c Hc. apply in_map_iff in Hc as (id & <- & _). reflexivity.
  - induction rest as [| id rest IH]; [reflexivity |]. cbn [map flat_map sources_of app].
    now rewrite IH.
Qed.

(** C2, as the code has it: when the Object Lister returns [N] identifiers
    that [txb.object] accepts, the batch size is [B > 0] and the node
    accepts what is submitted to it (it does in the states [accepting],
    and stays within them), [mergeCoinObjects] submits
    [ceil (N / B)] transactions less the batches of exactly one element.
    With [B >= 2] at most one batch, the remainder, has one element; with
    [B = 1] every batch has one element and nothing is submitted.  With
    [N <= 1] the function returns at once and submits nothing. *)
Theorem merge_transaction_count {W} (sdk : Sdk W) (accepting : W -> Prop) fuel privateKey
    tokenAddress batchSize rpcUrl keyPair (w w1 : W) ids t1 :
  0 < batchSize ->
  fromSecretKey sdk privateKey = Ok keyPair ->
  (forall p w0, accepting w0 ->
     exists result w2,
       signAndExecuteTransaction (newSuiClient sdk rpcUrl) p w0 = (Ok result, w2) /\
       accepting w2) ->
  getAllTokenObjectIds fuel (newSuiClient sdk rpcUrl) (toSuiAddress sdk keyPair)
    tokenAddress w = Some (Ok ids, w1, t1) ->
  (forall id, In id ids -> checkObjectId sdk id = Ok tt) ->
  accepting w1 ->
  len ids <= Z.of_nat fuel ->
  exists w2 t,
    mergeCoinObjects sdk fuel privateKey tokenAddress batchSize rpcUrl w
      = Some (Ok tt, w2, t) /\
    submissions t = ceil_div (len ids) batchSize - singletons batchSize ids /\
    (2 <= batchSize -> singletons batchSize ids <= 1) /\
    (batchSize = 1 -> singletons batchSize ids = len ids /\ submissions t = 0) /\
    (len ids <= 1 -> t = t1 ++ [ConsoleLog NoCoinsNeedMerged] /\ submissions t = 0).
Proof.
  intros HB Hkey Haccept Hlist Hbuilt Hw1 Hfuel.
  destruct (@merge_run _ sdk accepting fuel privateKey tokenAddress batchSize rpcUrl keyPair
              w w1 ids t1 HB Hkey Hbuilt Haccept Hlist Hw1 Hfuel)
    as (w2 & t & Hrun & Hplan).
  exists w2, t. split; [exact Hrun |].
  assert (Hb : (1 <= Z.to_nat batchSize)%nat) by lia.
  assert (Hcount : submissions t = ceil_div (len ids) batchSize - singletons batchSize ids).
  { unfold submissions, singletons. rewrite Hplan, submissions_plan.
    rewrite large_or_single.
    - unfold contiguous_batches. rewrite chunks_count by lia.
      now rewrite Z2Nat.id by lia.
    - eapply Forall_impl; [| apply chunks_sizes; exact Hb]. cbv beta. lia. }
  split; [exact Hcount |]. split; [| split].
  - intros H2. unfold singletons, contiguous_batches.
    rewrite singles_of_chunks by lia. destruct (_ =? 1); lia.
  - intros ->. rewrite Hcount, singles_of_unit_batches. split; [reflexivity |].
    unfold ceil_div. rewrite Z.div_1_r. lia.
  - intros Hfew. split.
    + erewrite merge_after_listing in Hrun by eassumption.
      rewrite merge_fetched_few in Hrun by assumption. now injection Hrun as _ <-.
    + unfold submissions. rewrite Hplan, plan_of_small; [reflexivity |].
      now apply few_make_small_batches.
Qed.

(** The scripted node accepts whatever is submitted once its script of
    outcomes is used up. *)
Lemma sample_accepts (p : ExecuteParams) (w0 : Sample.Node) :
  Sample.outcomes w0 = [] ->
  exists result w2,
    signAndExecuteTransaction Sample.client p w0 = (Ok result, w2) /\
    Sample.outcomes w2 = [].
Proof.
  intros H. exists {| digest := "digest" |}, w0. split; [| exact H].
  cbn [signAndExecuteTransaction Sample.client]. now rewrite H.
Qed.

Lemma merge_transaction_count_witness :
  exists w2 t,
    mergeCoinObjects Sample.sdk 20 "c0ffee" "0x2::sui::SUI" 2 SUI_RPC_URL (Sample.holding 7 50)
      = Some (Ok tt, w2, t) /\
    submissions t = 3.
Proof.
  edestruct (@merge_transaction_count _ Sample.sdk (fun w => Sample.outcomes w = [])
               20 "c0ffee" "0x2::sui::SUI" 2 SUI_RPC_URL {| secretKeyHex := "c0ffee" |}
               (Sample.holding 7 50))
    as (w2 & t & Hrun & Hcount & _).
  - lia.
  - reflexivity.
  - exact sample_accepts.
  - vm_compute. reflexivity.
  - intros id _. reflexivity.
  - reflexivity.
  - vm_compute. discriminate.
  - exists w2, t. split; [exact Hrun |]. rewrite Hcount. vm_compute. reflexivity.
Defined.

(** C2 fails as stated: with batch size 1 both batches made of two
    identifiers hold exactly one element, not at most one of them. *)
Lemma unit_batches_are_all_single :
  let ids := ["0xc0"; "0xc1"] in
  exists w1 t1 w2 t,
    getAllTokenObjectIds 5 Sample.client "0xa11ce" "0x2::sui::SUI" (Sample.holding 2 50)
      = Some (Ok ids, w1, t1) /\
    mergeCoinObjects Sample.sdk 5 "c0ffee" "0x2::sui::SUI" 1 SUI_RPC_URL (Sample.holding 2 50)
      = Some (Ok tt, w2, t) /\
    submissions t = 0 /\
    batch_at ids 1 0 = ["0xc0"] /\
    batch_at ids 1 1 = ["0xc1"] /\
    singletons 1 ids = 2 /\
    ~ singletons 1 ids <= 1.
Proof.
  eexists _, _, _, _. split; [vm_compute; reflexivity |].
  split; [vm_compute; reflexivity |].
  repeat (split; [vm_compute; reflexivity |]).
  vm_compute. intros H. now apply H.
Qed.

(** C6, as the code has it: for a batch size [B > 0], identifiers that
    [txb.object] accepts and a node that accepts what is submitted to it
    (it does in the states [accepting], and stays within them),
    [mergeCoinObjects] waits one second after a submission exactly when a
    further batch follows the one submitted, whether that batch will be
    submitted or is a single element to skip.  With [B >= 2] that makes a
    wait after every batch but the last: [ceil (N / B) - 1] waits, one
    fewer than the submissions unless the remainder is a single element,
    when the last submission too is followed by a wait.  For 1200
    identifiers in batches of 500 there are 3 submissions and 2 waits. *)
Theorem delay_after_submission {W} (sdk : Sdk W) (accepting : W -> Prop) fuel privateKey
    tokenAddress batchSize rpcUrl keyPair (w w1 : W) ids t1 :
  0 < batchSize ->
  fromSecretKey sdk privateKey = Ok keyPair ->
  (forall p w0, accepting w0 ->
     exists result w2,
       signAndExecuteTransaction (newSuiClient sdk rpcUrl) p w0 = (Ok result, w2) /\
       accepting w2) ->
  getAllTokenObjectIds fuel (newSuiClient sdk rpcUrl) (toSuiAddress sdk keyPair)
    tokenAddress w = Some (Ok ids, w1, t1) ->
  (forall id, In id ids -> checkObjectId sdk id = Ok tt) ->
  accepting w1 ->
  len ids <= Z.of_nat fuel ->
  exists w2 t,
    mergeCoinObjects sdk fuel privateKey tokenAddress batchSize rpcUrl w
      = Some (Ok tt, w2, t) /\
    actions t = plan (contiguous_batches batchSize ids) /\
    Forall (fun a => is_delay a = true -> a = Waited 1000) (actions t) /\
    (2 <= batchSize -> 1 <= len ids ->
     delays t = ceil_div (len ids) batchSize - 1 /\
     submissions t
       = ceil_div (len ids) batchSize - (if len ids mod batchSize =? 1 then 1 else 0)) /\
    (batchSize = 1 -> delays t = 0 /\ submissions t = 0) /\
    (batchSize = 500 -> len ids = 1200 -> submissions t = 3 /\ delays t = 2).
Proof.
  intros HB Hkey Haccept Hlist Hbuilt Hw1 Hfuel.
  destruct (@merge_run _ sdk accepting fuel privateKey tokenAddress batchSize rpcUrl keyPair
              w w1 ids t1 HB Hkey Hbuilt Haccept Hlist Hw1 Hfuel)
    as (w2 & t & Hrun & Hplan).
  exists w2, t. split; [exact Hrun |]. split; [exact Hplan |].
  split; [rewrite Hplan; apply plan_delays_fixed |].
  assert (Hlarge : 2 <= batchSize -> 1 <= len ids ->
            delays t = ceil_div (len ids) batchSize - 1 /\
            submissions t
              = ceil_div (len ids) batchSize
                - (if len ids mod batchSize =? 1 then 1 else 0)).
  { intros H2 Hne. unfold delays, submissions. rewrite Hplan. unfold contiguous_batches.
    rewrite delays_of_chunks, submissions_plan, large_or_single; try lia.
    - rewrite singles_of_chunks, chunks_count by lia.
      rewrite Z2Nat.id by lia. auto.
    - eapply Forall_impl; [| apply chunks_sizes with (b := Z.to_nat batchSize); lia].
      cbv beta. lia.
    - intros ->. unfold len in Hne. cbn [length] in Hne. lia. }
  split; [exact Hlarge |]. split.
  - intros ->. unfold delays, submissions. rewrite Hplan, plan_of_small; [split; reflexivity |].
    eapply Forall_impl; [| apply chunks_sizes with (b := 1%nat); lia]. cbv beta. lia.
  - intros -> HN. destruct Hlarge as [Hd Hs]; try lia.
    rewrite Hd, Hs, HN. split; reflexivity.
Qed.

Lemma delay_after_submission_witness :
  exists w2 t,
    mergeCoinObjects Sample.sdk 30 "c0ffee" "0x2::sui::SUI" 4 SUI_RPC_URL (Sample.holding 9 50)
      = Some (Ok tt, w2, t) /\
    submissions t = 2 /\ delays t = 2.
Proof.
  edestruct (@delay_after_submission _ Sample.sdk (fun w => Sample.outcomes w = [])
               30 "c0ffee" "0x2::sui::SUI" 4 SUI_RPC_URL {| secretKeyHex := "c0ffee" |}
               (Sample.holding 9 50))
    as (w2 & t & Hrun & _ & _ & Hlarge & _).
  - lia.
  - reflexivity.
  - exact sample_accepts.
  - vm_compute. reflexivity.
  - intros id _. reflexivity.
  - reflexivity.
  - vm_compute. discriminate.
  - exists w2, t. split; [exact Hrun |].
    destruct Hlarge as [Hd Hs]; [lia | vm_compute; discriminate |].
    rewrite Hd, Hs. split; vm_compute; reflexivity.
Defined.

(** C6 fails as stated: three identifiers in batches of two make one
    submission, the last one, and a wait follows it. *)
Lemma wait_follows_last_submission :
  exists w2 t,
    mergeCoinObjects Sample.sdk 5 "c0ffee" "0x2::sui::SUI" 2 SUI_RPC_URL (Sample.holding 3 50)
      = Some (Ok tt, w2, t) /\
    actions t = [Submitted [MergeCoins (TxObject "0xc0") [TxObject "0xc1"]]; Waited 1000] /\
    submissions t = 1 /\ delays t = 1.
Proof.
  eexists _, _. split; [vm_compute; reflexivity |].
  repeat split; vm_compute; reflexivity.
Qed.

(** The scenario of the specification: 1200 identifiers, batches of 500. *)
Example merge_1200_by_500 :
  exists w2 t,
    mergeCoinObjects Sample.sdk 100 "c0ffee" "0x2::sui::SUI" 500 SUI_RPC_URL
      (Sample.holding 1200 50) = Some (Ok tt, w2, t) /\
    map (fun tx => len tx + 1) (submitted t) = [500; 500; 200] /\
    submissions t = 3 /\ delays t = 2.
Proof.
  eexists _, _. split; [vm_compute; reflexivity |].
  repeat split; vm_compute; reflexivity.
Qed.

(** C7: [mergeCoinObjects] cuts the identifiers it fetched into contiguous
    batches of at most [batchSize], in the original order, all full but
    possibly the last; for every batch of more than one element, and for
    no other, it submits one transaction, in the order of the batches;
    the transaction [txb.object] and [txb.mergeCoins] build for a batch
    is [merge_transaction] of it, which merges each identifier of the
    batch but the first into the first.  This is for a positive batch
    size, identifiers that [txb.object] accepts (it throws on the others,
    and the run ends there) and a node that accepts what is submitted to
    it (it does in the states [accepting], and stays within them). *)
Theorem batches_and_transactions {W} (sdk : Sdk W) (accepting : W -> Prop) fuel privateKey
    tokenAddress batchSize rpcUrl keyPair (w w1 : W) ids t1 :
  0 < batchSize ->
  fromSecretKey sdk privateKey = Ok keyPair ->
  (forall p w0, accepting w0 ->
     exists result w2,
       signAndExecuteTransaction (newSuiClient sdk rpcUrl) p w0 = (Ok result, w2) /\
       accepting w2) ->
  getAllTokenObjectIds fuel (newSuiClient sdk rpcUrl) (toSuiAddress sdk keyPair)
    tokenAddress w = Some (Ok ids, w1, t1) ->
  (forall id, In id ids -> checkObjectId sdk id = Ok tt) ->
  accepting w1 ->
  len ids <= Z.of_nat fuel ->
  exists w2 t,
    mergeCoinObjects sdk fuel privateKey tokenAddress batchSize rpcUrl w
      = Some (Ok tt, w2, t) /\
    concat (contiguous_batches batchSize ids) = ids /\
    Forall (fun batch => 1 <= len batch <= batchSize) (contiguous_batches batchSize ids) /\
    Forall (fun batch => len batch = batchSize)
      (removelast (contiguous_batches batchSize ids)) /\
    submitted t
      = map merge_transaction
          (filter (fun batch => 1 <? len batch) (contiguous_batches batchSize ids)) /\
    Forall (fun batch => build_merge sdk batch = Ok (merge_transaction batch))
      (contiguous_batches batchSize ids) /\
    (forall first rest,
       Forall (fun c => destination_of c = TxObject first) (merge_transaction (first :: rest)) /\
       flat_map sources_of (merge_transaction (first :: rest)) = map TxObject rest).
Proof.
  intros HB Hkey Haccept Hlist Hbuilt Hw1 Hfuel.
  destruct (@merge_run _ sdk accepting fuel privateKey tokenAddress batchSize rpcUrl keyPair
              w w1 ids t1 HB Hkey Hbuilt Haccept Hlist Hw1 Hfuel)
    as (w2 & t & Hrun & Hplan).
  exists w2, t. split; [exact Hrun |].
  unfold contiguous_batches. repeat split.
  - apply chunks_concat; lia.
  - eapply Forall_impl; [| apply chunks_sizes with (b := Z.to_nat batchSize); lia].
    cbv beta. unfold len. lia.
  - eapply Forall_impl; [| apply chunks_full; lia]. cbv beta. unfold len. lia.
  - unfold submitted. rewrite Hplan. apply submitted_plan.
  - apply Forall_forall. intros batch Hin. apply build_merge_ok.
    intros id Hid. apply Hbuilt.
    rewrite <- (@chunks_concat _ (length ids) (Z.to_nat batchSize) ids) by lia.
    apply in_concat. now exists batch.
  - apply merge_transaction_folds.
  - apply merge_transaction_folds.
Qed.

Lemma batches_and_transactions_witness :
  exists w2 t,
    mergeCoinObjects Sample.sdk 20 "c0ffee" "0x2::sui::SUI" 3 SUI_RPC_URL (Sample.holding 7 50)
      = Some (Ok tt, w2, t) /\
    submitted t
      = [ [MergeCoins (TxObject "0xc0") [TxObject "0xc1"];
           MergeCoins (TxObject "0xc0") [TxObject "0xc2"]];
          [MergeCoins (TxObject "0xc3") [TxObject "0xc4"];
           MergeCoins (TxObject "0xc3") [TxObject "0xc5"]] ].
Proof.
  edestruct (@batches_and_transactions _ Sample.sdk (fun w => Sample.outcomes w = [])
               20 "c0ffee" "0x2::sui::SUI" 3 SUI_RPC_URL {| secretKeyHex := "c0ffee" |}
               (Sample.holding 7 50))
    as (w2 & t & Hrun & _ & _ & _ & Hsub & _).
  - lia.
  - reflexivity.
  - exact sample_accepts.
  - vm_compute. reflexivity.
  - intros id _. reflexivity.
  - reflexivity.
  - vm_compute. discriminate.
  - exists w2, t. split; [exact Hrun |]. rewrite Hsub. vm_compute. reflexivity.
Defined.

(** C9: with a positive batch size the batching loop ends on every
    sequence of identifiers, whatever the node answers, and so does
    [mergeCoinObjects] once the listing has ended.  With batch size 0 and
    two or more identifiers a turn of the loop leaves the index at 0
    and nothing else has changed, so the function never returns. *)
Theorem batching_termination {W} (sdk : Sdk W) privateKey tokenAddress rpcUrl (w : W) :
  (forall batchSize (client : SuiClient W) keyPair ids (w0 : W),
     0 < batchSize ->
     exists r w' t,
       batch_loop sdk (length ids) client keyPair ids batchSize 0 w0 = Some (r, w', t)) /\
  (forall batchSize,
     0 < batchSize ->
     (forall keyPair,
        fromSecretKey sdk privateKey = Ok keyPair ->
        exists fuel0 r1 w1 t1,
          getAllTokenObjectIds fuel0 (newSuiClient sdk rpcUrl) (toSuiAddress sdk keyPair)
            tokenAddress w = Some (r1, w1, t1)) ->
     exists fuel r w' t,
       mergeCoinObjects sdk fuel privateKey tokenAddress batchSize rpcUrl w
         = Some (r, w', t)) /\
  (forall keyPair fuel0 ids w1 t1,
     fromSecretKey sdk privateKey = Ok keyPair ->
     getAllTokenObjectIds fuel0 (newSuiClient sdk rpcUrl) (toSuiAddress sdk keyPair)
       tokenAddress w = Some (Ok ids, w1, t1) ->
     2 <= len ids ->
     (forall w0,
        batch_body sdk (newSuiClient sdk rpcUrl) keyPair ids 0 0 w0
          = Some (Ok (Continue 0), w0, [])) /\
     (forall fuel,
        mergeCoinObjects sdk fuel privateKey tokenAddress 0 rpcUrl w = None)).
Proof.
  split; [| split].
  - intros batchSize client keyPair ids w0 HB.
    apply batch_loop_ends; unfold len; lia.
  - intros batchSize HB Hlist.
    destruct (fromSecretKey sdk privateKey) as [keyPair | e] eqn:Hkey.
    + destruct (Hlist keyPair eq_refl) as (fuel0 & r1 & w1 & t1 & Hrun).
      destruct (lister_returns _ _ _ _ _ Hrun) as (ids & ->).
      exists (max fuel0 (length ids)).
      apply (@lister_more_fuel _ _ _ _ fuel0 (max fuel0 (length ids))) in Hrun; [| lia].
      erewrite merge_after_listing by eassumption.
      destruct (Z.le_gt_cases (len ids) 1) as [Hfew | Hmany].
      * rewrite merge_fetched_few by assumption. eauto.
      * rewrite merge_fetched_many by assumption.
        destruct (@batch_loop_ends _ sdk (newSuiClient sdk rpcUrl) keyPair ids batchSize HB
                    (max fuel0 (length ids)) 0 w1) as (r & w' & t & Hloop);
          [lia | unfold len; lia |].
        rewrite Hloop. destruct r; eauto.
    + exists 0%nat.
      unfold mergeCoinObjects, mergeCoinObjects_try, try_catch, bind, lift.
      rewrite Hkey. cbn. eauto.
  - intros keyPair fuel0 ids w1 t1 Hkey Hlist Hlen. split.
    + intros w0. now apply batch_body_stuck.
    + intros fuel.
      destruct (getAllTokenObjectIds fuel (newSuiClient sdk rpcUrl) (toSuiAddress sdk keyPair)
                  tokenAddress w) as [[[r w2] t2] |] eqn:Hfuel.
      * pose proof (@lister_more_fuel _ _ _ _ _ _ (Nat.le_max_r fuel0 fuel) _ _ Hfuel) as Hr.
        pose proof (@lister_more_fuel _ _ _ _ _ _ (Nat.le_max_l fuel0 fuel) _ _ Hlist) as Hl.
        rewrite Hl in Hr. injection Hr as <- <- <-.
        erewrite merge_after_listing by eassumption.
        rewrite merge_fetched_many by lia.
        rewrite batch_loop_stuck; auto; lia.
      * unfold mergeCoinObjects, mergeCoinObjects_try.
        apply try_catch_none. unfold bind, lift. rewrite Hkey. now rewrite Hfuel.
Qed.

Lemma batching_termination_witness :
  (exists r w' t,
     batch_loop Sample.sdk 3 Sample.client {| secretKeyHex := "c0ffee" |} ["0xc0"; "0xc1"; "0xc2"] 2 0
       (Sample.rejecting 3) = Some (r, w', t)) /\
  (exists fuel r w' t,
     mergeCoinObjects Sample.sdk fuel "c0ffee" "0x2::sui::SUI" 500 SUI_RPC_URL
       (Sample.holding 3 50) = Some (r, w', t)) /\
  (forall fuel,
     mergeCoinObjects Sample.sdk fuel "c0ffee" "0x2::sui::SUI" 0 SUI_RPC_URL
       (Sample.holding 3 50) = None).
Proof.
  pose proof (batching_termination Sample.sdk "c0ffee" "0x2::sui::SUI" SUI_RPC_URL
                (Sample.holding 3 50)) as (Hloop & Hends & Hstuck).
  split; [| split].
  - apply (Hloop 2 Sample.client {| secretKeyHex := "c0ffee" |} ["0xc0"; "0xc1"; "0xc2"]).
    lia.
  - apply (Hends 500); [lia |]. intros keyPair _.
    exists 5%nat. eexists _, _, _. vm_compute. reflexivity.
  - eapply (Hstuck {| secretKeyHex := "c0ffee" |} 5%nat);
      [reflexivity | vm_compute; reflexivity | vm_compute; discriminate].
Defined.

(** C5, as the code has it: an error thrown by reading the key, by
    building a transaction, or by signing and submitting it is printed by
    [mergeCoinObjects] and thrown again, so the call fails with that same
    error.  A refused identifier ends the loop at that turn before
    anything is submitted, a rejected submission ends it after the
    request, and a failed loop fails the call.  Listing is different: the
    Object Lister has swallowed its error and returned nothing, so a
    failed listing makes the call return normally. *)
Theorem merge_propagates_errors {W} (sdk : Sdk W) fuel privateKey tokenAddress batchSize
    rpcUrl (w : W) :
  (forall e w1 t1,
     mergeCoinObjects_try sdk fuel privateKey tokenAddress batchSize rpcUrl w
       = Some (Throw e, w1, t1) ->
     mergeCoinObjects sdk fuel privateKey tokenAddress batchSize rpcUrl w
       = Some (Throw e, w1, t1 ++ [ConsoleError (Some ErrorMergingCoins) e])) /\
  (forall e,
     fromSecretKey sdk privateKey = Throw e ->
     mergeCoinObjects sdk fuel privateKey tokenAddress batchSize rpcUrl w
       = Some (Throw e, w, [ConsoleError (Some ErrorMergingCoins) e])) /\
  (forall keyPair ids f i (w0 : W) e,
     i < len ids -> 1 < len (batch_at ids batchSize i) ->
     build_merge sdk (batch_at ids batchSize i) = Throw e ->
     batch_loop sdk (S f) (newSuiClient sdk rpcUrl) keyPair ids batchSize i w0
       = Some (Throw e, w0, [])) /\
  (forall keyPair ids f i (w0 w1 : W) txb e,
     i < len ids -> 1 < len (batch_at ids batchSize i) ->
     build_merge sdk (batch_at ids batchSize i) = Ok txb ->
     signAndExecuteTransaction (newSuiClient sdk rpcUrl) (executeParams keyPair txb) w0
       = (Throw e, w1) ->
     batch_loop sdk (S f) (newSuiClient sdk rpcUrl) keyPair ids batchSize i w0
       = Some (Throw e, w1, [Rpc (ReqSignAndExecute (executeParams keyPair txb))])) /\
  (forall keyPair ids w1 t1 e w2 t2,
     fromSecretKey sdk privateKey = Ok keyPair ->
     getAllTokenObjectIds fuel (newSuiClient sdk rpcUrl) (toSuiAddress sdk keyPair)
       tokenAddress w = Some (Ok ids, w1, t1) ->
     1 < len ids ->
     batch_loop sdk fuel (newSuiClient sdk rpcUrl) keyPair ids batchSize 0 w1
       = Some (Throw e, w2, t2) ->
     mergeCoinObjects sdk fuel privateKey tokenAddress batchSize rpcUrl w
       = Some (Throw e, w2,
               (t1 ++ ConsoleLog (FoundObjects (len ids) tokenAddress) :: t2)
               ++ [ConsoleError (Some ErrorMergingCoins) e])) /\
  (forall keyPair n e,
     fromSecretKey sdk privateKey = Ok keyPair ->
     page_at (newSuiClient sdk rpcUrl) (toSuiAddress sdk keyPair) tokenAddress n None w
       = Throw e ->
     (forall k, (k < n)%nat ->
        exists p,
          page_at (newSuiClient sdk rpcUrl) (toSuiAddress sdk keyPair) tokenAddress k None w
            = Ok p /\
          hasNextPage p = true /\
          len (fetched (newSuiClient sdk rpcUrl) (toSuiAddress sdk keyPair) tokenAddress
                 (S k) None w) < 5000) ->
     (n < fuel)%nat ->
     exists w' t,
       mergeCoinObjects sdk fuel privateKey tokenAddress batchSize rpcUrl w
         = Some (Ok tt, w', t) /\
       In (ConsoleError (Some (ErrorFetchingCoinObjectIds (toSuiAddress sdk keyPair))) e) t).
Proof.
  split; [| split; [| split; [| split; [| split]]]].
  - intros e w1 t1 Htry. unfold mergeCoinObjects.
    rewrite (try_catch_throw _ _ _ Htry). reflexivity.
  - intros e Hkey.
    unfold mergeCoinObjects, mergeCoinObjects_try, try_catch, bind, lift.
    rewrite Hkey. reflexivity.
  - intros keyPair ids f i w0 e Hi Hbig Hbuild.
    rewrite batch_turn by assumption. cbv zeta.
    replace (1 <? len (batch_at ids batchSize i)) with true by lia.
    now rewrite Hbuild.
  - intros keyPair ids f i w0 w1 txb e Hi Hbig Hbuild Hfail.
    rewrite batch_turn by assumption. cbv zeta.
    replace (1 <? len (batch_at ids batchSize i)) with true by lia.
    now rewrite Hbuild, Hfail.
  - intros keyPair ids w1 t1 e w2 t2 Hkey Hlist Hmany Hloop.
    erewrite merge_after_listing by eassumption.
    rewrite merge_fetched_many by assumption. now rewrite Hloop.
  - intros keyPair n e Hkey Hfail Hbefore Hfuel.
    destruct (@paging_failed _ (newSuiClient sdk rpcUrl) (toSuiAddress sdk keyPair)
                tokenAddress n fuel paging_start w e) as (w' & t & Hrun & _); auto.
    assert (Hlist : getAllTokenObjectIds fuel (newSuiClient sdk rpcUrl)
                      (toSuiAddress sdk keyPair) tokenAddress w
                    = Some (Ok [], w',
                            t ++ [ConsoleError
                                    (Some (ErrorFetchingCoinObjectIds
                                             (toSuiAddress sdk keyPair))) e])).
    { rewrite lister_of_loop, Hrun. reflexivity. }
    eexists _, _. split.
    + erewrite merge_after_listing by eassumption.
      rewrite merge_fetched_few by (unfold len; cbn [length]; lia). reflexivity.
    + apply in_or_app. left. apply in_or_app. right. now left.
Qed.

Lemma merge_propagates_errors_witness :
  (exists w1 t,
     mergeCoinObjects Sample.sdk 5 "c0ffee" "0x2::sui::SUI" 500 SUI_RPC_URL
       (Sample.rejecting 3)
       = Some (Throw "insufficient gas", w1,
               t ++ [ConsoleError (Some ErrorMergingCoins) "insufficient gas"])) /\
  (exists w1 t,
     mergeCoinObjects Sample.strict_sdk 5 "c0ffee" "0x2::sui::SUI" 500 SUI_RPC_URL
       (Sample.holding 5 50)
       = Some (Throw "Invalid Sui Object id", w1,
               t ++ [ConsoleError (Some ErrorMergingCoins) "Invalid Sui Object id"]) /\
     submissions t = 0).
Proof.
  split.
  - eexists _, _.
    apply (proj1 (merge_propagates_errors Sample.sdk 5 "c0ffee" "0x2::sui::SUI" 500
                    SUI_RPC_URL (Sample.rejecting 3))).
    vm_compute. reflexivity.
  - eexists _, _. split.
    + apply (proj1 (merge_propagates_errors Sample.strict_sdk 5 "c0ffee" "0x2::sui::SUI" 500
                      SUI_RPC_URL (Sample.holding 5 50))).
      vm_compute. reflexivity.
    + vm_compute. reflexivity.
Defined.

(** C5 fails as stated: the listing throws at the third page, and the
    call does not fail with that error; it prints it, finds nothing to
    merge and returns normally. *)
Lemma failed_listing_is_not_propagated :
  exists w1 t,
    getCoins Sample.client (getCoinsParams "0xa11ce" "0x2::sui::SUI" (Some "0xc100"))
      {| Sample.balances := Sample.balances Sample.failing_third_page;
         Sample.pages := [Throw "request timed out"];
         Sample.exhausted := Sample.exhausted Sample.failing_third_page;
         Sample.outcomes := [] |}
      = (Throw "request timed out",
         {| Sample.balances := Sample.balances Sample.failing_third_page;
            Sample.pages := [];
            Sample.exhausted := Sample.exhausted Sample.failing_third_page;
            Sample.outcomes := [] |}) /\
    mergeCoinObjects Sample.sdk 5 "c0ffee" "0x2::sui::SUI" 500 SUI_RPC_URL
      Sample.failing_third_page = Some (Ok tt, w1, t) /\
    In (ConsoleError (Some (ErrorFetchingCoinObjectIds "0xa11ce")) "request timed out") t /\
    ~ In (ConsoleError (Some ErrorMergingCoins) "request timed out") t /\
    submissions t = 0.
Proof.
  eexists _, _. split; [reflexivity |]. split; [vm_compute; reflexivity |].
  split; [| split; [| vm_compute; reflexivity]].
  - do 3 right. now left.
  - intros Hin. repeat (destruct Hin as [Hin | Hin]; [discriminate |]). exact Hin.
Qed.

(** * Driver *)

(** The promise of line 151 is always fulfilled: whatever [main] threw has
    been caught and printed. *)
Lemma program_fulfilled {W} (sdk : Sdk W) fuel (w : W) r w' t :
  program sdk fuel w = Some (r, w', t) -> r = Ok tt.
Proof.
  unfold program, try_catch, emit.
  destruct (main sdk fuel w) as [[[[[] | e] w1] t1] |]; try discriminate;
    now intros [= <- _ _].
Qed.

(** C3, as the code has it: when a call of [mergeCoinObjects] in the loop
    of [main] throws, the loop ends there, no later token type is
    processed, the handler of line 151 prints the error, and the process
    exits with status 0, the rejection having been handled.  The process
    exits with status 0 whenever it ends, also when no token is found. *)
Theorem driver_stops_at_failed_merge {W} (sdk : Sdk W) fuel (w : W) :
  (forall status t, run sdk fuel w = Some (status, t) -> status = 0) /\
  (forall privateKey keyPair w1 t1,
     decodeSuiPrivateKey sdk (MERGE_COIN_PRIVATE_KEY sdk) = Ok privateKey ->
     fromSecretKey sdk privateKey = Ok keyPair ->
     getOwnedTokens (newSuiClient sdk SUI_RPC_URL) (toSuiAddress sdk keyPair) w
       = Some (Ok [], w1, t1) ->
     run sdk fuel w = Some (0, t1 ++ [ConsoleLog NoOwnedTokensFound])) /\
  (forall privateKey keyPair before token after e w1 t1 w2 t2 w3 t3,
     decodeSuiPrivateKey sdk (MERGE_COIN_PRIVATE_KEY sdk) = Ok privateKey ->
     fromSecretKey sdk privateKey = Ok keyPair ->
     getOwnedTokens (newSuiClient sdk SUI_RPC_URL) (toSuiAddress sdk keyPair) w
       = Some (Ok (before ++ token :: after), w1, t1) ->
     for_of before (main_body sdk fuel privateKey) w1 = Some (Ok tt, w2, t2) ->
     mergeCoinObjects sdk fuel privateKey token 500 SUI_RPC_URL w2
       = Some (Throw e, w3, t3) ->
     let t :=
       t1 ++ ConsoleLog (FoundOwnedTokens (len (before ++ token :: after))
                           (toSuiAddress sdk keyPair))
          :: t2 ++ ConsoleLog (TokenAddressLine token) :: t3 in
     main sdk fuel w = Some (Throw e, w3, t) /\
     run sdk fuel w = Some (0, t ++ [ConsoleError None e])).
Proof.
  split; [| split].
  - intros status t. unfold run.
    destruct (program sdk fuel w) as [[[r w'] t'] |] eqn:Hrun; [| discriminate].
    apply program_fulfilled in Hrun as ->. now intros [= <- _].
  - intros privateKey keyPair w1 t1 Hdec Hkey Hown.
    unfold run, program, try_catch, main, bind, lift. rewrite Hdec, Hkey. cbv zeta.
    rewrite Hown. reflexivity.
  - intros privateKey keyPair before token after e w1 t1 w2 t2 w3 t3 Hdec Hkey Hown
      Hbefore Hmerge t.
    assert (Hmain : main sdk fuel w = Some (Throw e, w3, t)).
    { unfold main, bind at 1 2, lift. rewrite Hdec, Hkey. cbv zeta.
      rewrite (bind_ok _ _ _ Hown).
      replace (len (before ++ token :: after) =? 0) with false
        by (symmetry; apply Z.eqb_neq; rewrite len_app; unfold len; cbn [length]; lia).
      unfold bind at 1, emit.
      rewrite (for_of_app _ _ (token :: after) _ Hbefore). cbn [for_of].
      unfold main_body at 1. unfold bind at 1 2, emit. rewrite Hmerge. reflexivity. }
    split; [exact Hmain |].
    unfold run, program, try_catch, emit. now rewrite Hmain.
Qed.

Lemma driver_stops_at_failed_merge_witness :
  exists t,
    run Sample.sdk 5 (Sample.rejecting 3)
      = Some (0, t ++ [ConsoleError None "insufficient gas"]).
Proof.
  edestruct (proj2 (proj2 (driver_stops_at_failed_merge Sample.sdk 5 (Sample.rejecting 3)))
               "c0ffee" {| secretKeyHex := "c0ffee" |} (@nil TokenType)
               "0x2::sui::SUI" ["0xa::navx::NAVX"])
    as [_ Hrun].
  - reflexivity.
  - reflexivity.
  - vm_compute. reflexivity.
  - reflexivity.
  - vm_compute. reflexivity.
  - eexists. exact Hrun.
Defined.

(** C3 fails as stated: the first of two token types fails to merge, the
    second is not processed, and the process exits with status 0. *)
Lemma failed_merge_exits_zero :
  exists w' t' t,
    mergeCoinObjects Sample.sdk 5 "c0ffee" "0x2::sui::SUI" 500 SUI_RPC_URL (Sample.rejecting 3)
      = Some (Throw "insufficient gas", w', t') /\
    run Sample.sdk 5 (Sample.rejecting 3) = Some (0, t) /\
    In (ConsoleError None "insufficient gas") t /\
    ~ In (ConsoleLog (TokenAddressLine "0xa::navx::NAVX")) t /\
    ~ exists status t0, run Sample.sdk 5 (Sample.rejecting 3) = Some (status, t0) /\
                        status <> 0.
Proof.
  eexists _, _, _. split; [vm_compute; reflexivity |].
  split; [vm_compute; reflexivity |]. split; [| split].
  - repeat first [now left | right].
  - intros Hin. repeat (destruct Hin as [Hin | Hin]; [discriminate |]). exact Hin.
  - intros (status & t0 & Hrun & Hne). vm_compute in Hrun.
    injection Hrun as <- _. now apply Hne.
Qed.

(** * What the effects of a run can be *)

Section EmitFacts.
Context {W : Type}.
Variable P : Event -> Prop.

Lemma emits_ret {A} (a : A) : emits P (ret (W := W) a).
Proof. intros w r w' t [= _ _ <-]. constructor. Qed.

Lemma emits_throw {A} e : emits P (throw (W := W) (A := A) e).
Proof. intros w r w' t [= _ _ <-]. constructor. Qed.


Lemma emits_emit ev : P ev -> emits P (emit (W := W) ev).
Proof. intros H w r w' t [= _ _ <-]. now constructor. Qed.

Lemma emits_call {A} req (f : W -> Result A * W) : P (Rpc req) -> emits P (call req f).
Proof.
  intros H w r w' t. unfold call. destruct (f w) as [x w1].
  intros [= _ _ <-]. now constructor.
Qed.

Lemma emits_bind {A B} (m : M W A) (k : A -> M W B) :
  emits P m -> (forall a, emits P (k a)) -> emits P (bind m k).
Proof.
  intros Hm Hk w r w' t H.
  apply bind_inv in H as [(e & H & _) | (a & w1 & t1 & t2 & H1 & H2 & ->)].
  - exact (Hm _ _ _ _ H).
  - apply Forall_app. split; [exact (Hm _ _ _ _ H1) | exact (Hk _ _ _ _ _ H2)].
Qed.

Lemma emits_lift_bind {A B} (x : Result A) (k : A -> M W B) :
  (forall a, x = Ok a -> emits P (k a)) -> emits P (bind (lift x) k).
Proof.
  intros Hk w r w' t. unfold bind, lift. destruct x as [a | e].
  - destruct (k a w) as [[[r2 w2] t2] |] eqn:E; [| discriminate].
    intros [= _ _ <-]. exact (Hk a eq_refl _ _ _ _ E).
  - intros [= _ _ <-]. constructor.
Qed.

Lemma emits_try_catch {A} (m : M W A) (h : Error -> M W A) :
  emits P m -> (forall e, emits P (h e)) -> emits P (try_catch m h).
Proof.
  intros Hm Hh w r w' t. unfold try_catch.
  destruct (m w) as [[[[a | e] w1] t1] |] eqn:E; try discriminate.
  - intros [= _ _ <-]. exact (Hm _ _ _ _ E).
  - destruct (h e w1) as [[[r2 w2] t2] |] eqn:E2; try discriminate.
    intros [= _ _ <-]. apply Forall_app.
    split; [exact (Hm _ _ _ _ E) | exact (Hh _ _ _ _ _ E2)].
Qed.

Lemma emits_when b (m : M W unit) : emits P m -> emits P (when b m).
Proof. intros H. destruct b; [exact H | apply emits_ret]. Qed.

Lemma emits_while {S} (cond : S -> bool) (body : S -> M W (Step S)) :
  (forall s, emits P (body s)) -> forall f s, emits P (while f cond body s).
Proof.
  intros Hbody. induction f as [| f IH]; intros s; simpl;
    destruct (cond s); try apply emits_ret.
  - intros w r w' t [=].
  - apply emits_bind; [apply Hbody |].
    intros [s1 | s1]; [apply IH | apply emits_ret].
Qed.

Lemma emits_for_of {A} (body : A -> M W unit) xs :
  (forall x, emits P (body x)) -> emits P (for_of xs body).
Proof.
  intros Hbody. induction xs as [| x xs IH]; simpl; [apply emits_ret |].
  apply emits_bind; [apply Hbody | intros _; exact IH].
Qed.

End EmitFacts.

Lemma emits_impl {W A} (P Q : Event -> Prop) (m : M W A) :
  (forall ev, P ev -> Q ev) -> emits P m -> emits Q m.
Proof. intros HPQ Hm w r w' t H. eapply Forall_impl; [exact HPQ | exact (Hm _ _ _ _ H)]. Qed.

Section MergeEvents.
Context {W : Type}.
Variable sdk : Sdk W.
Variable client : SuiClient W.
Variable address : Address.
Variable tokenAddress : TokenType.
Variable keyPair : Keypair.

#[local] Abbreviation allowed := (merge_event address tokenAddress keyPair).

Lemma lister_events fuel :
  emits allowed (getAllTokenObjectIds fuel client address tokenAddress).
Proof.
  apply emits_try_catch.
  - apply emits_bind; [| intros st; apply emits_ret].
    apply emits_while. intros st. unfold paging_body.
    apply emits_bind; [apply emits_call; simpl; auto |].
    intros page. cbv zeta. destruct (5000 <=? len _).
    + apply emits_bind; [apply emits_emit; exact I | intros _; apply emits_ret].
    + apply emits_ret.
  - intros e. apply emits_bind; [apply emits_emit; reflexivity | intros _; apply emits_ret].
Qed.

Lemma batch_loop_events fuel ids batchSize i :
  emits allowed (batch_loop sdk fuel client keyPair ids batchSize i).
Proof.
  apply emits_while. intros j. unfold batch_body. cbv zeta.
  apply emits_bind; [| intros _; apply emits_ret].
  destruct (1 <? len (batch_at ids batchSize j)) eqn:Hbig; [| apply emits_ret].
  apply emits_lift_bind. intros txb Hbuild.
  pose proof (build_merge_inv sdk (batch_at ids batchSize j)) as Htxb.
  rewrite Hbuild in Htxb. subst txb.
  apply emits_bind.
  - apply emits_call. simpl. repeat split.
    revert Hbig. destruct (batch_at ids batchSize j) as [| target [| second rest]];
      intros Hbig; try (cbv in Hbig; discriminate).
    exists target, (second :: rest). split; [discriminate | reflexivity].
  - intros result. apply emits_bind; [apply emits_emit; exact I |].
    intros _. apply emits_when. apply emits_emit. reflexivity.
Qed.

Lemma merge_fetched_events fuel batchSize ids :
  emits allowed (merge_fetched sdk fuel client keyPair tokenAddress batchSize ids).
Proof.
  unfold merge_fetched. destruct (len ids <=? 1); [apply emits_emit; exact I |].
  apply emits_bind; [apply emits_emit; exact I |]. intros _.
  apply emits_bind; [apply batch_loop_events |]. intros _. apply emits_emit. exact I.
Qed.

End MergeEvents.

(** * Further properties of the listers *)

Section ListerMore.
Context {W : Type}.
Variable client : SuiClient W.
Variable address : Address.
Variable tokenAddress : TokenType.

#[local] Abbreviation body := (paging_body client address tokenAddress).
#[local] Abbreviation page_at := (page_at client address tokenAddress).
#[local] Abbreviation fetched := (fetched client address tokenAddress).
#[local] Abbreviation cursor_at := (cursor_at client address tokenAddress).
#[local] Abbreviation asked cur w :=
  (fun k => ReqGetCoins (getCoinsParams address tokenAddress (cursor_at k cur w))).

Lemma requests_app t1 t2 : requests (t1 ++ t2) = requests t1 ++ requests t2.
Proof. apply flat_map_app. Qed.

Lemma asked_shift cur w page w1 m :
  getCoins client (getCoinsParams address tokenAddress cur) w = (Ok page, w1) ->
  map (asked cur w) (seq 0 (S m))
    = ReqGetCoins (getCoinsParams address tokenAddress cur)
        :: map (asked (nextCursor page) w1) (seq 0 m).
Proof.
  intros G. cbn [seq map]. f_equal.
  rewrite <- seq_shift, map_map. apply map_ext. intros k. cbn [cursor_at].
  now rewrite G.
Qed.

(** The requests of the paging loop follow the chain of cursors. *)
Lemma paging_requests : forall f st w r w' t,
  hasMore st = true ->
  while f hasMore body st w = Some (r, w', t) ->
  exists m, requests t = map (asked (cursor st) w) (seq 0 (S m)).
Proof.
  induction f as [| f IH]; intros st w r w' t Hmore H.
  - simpl in H. rewrite Hmore in H. discriminate.
  - rewrite paging_turn in H by assumption.
    destruct (getCoins client _ w) as [[page | e] w1] eqn:G.
    + cbv zeta in H. destruct (5000 <=? len _).
      * injection H as _ _ <-. now exists 0%nat.
      * destruct (while f _ _ _ w1) as [[[r2 w2] t2] |] eqn:Loop; [| discriminate].
        injection H as _ _ <-.
        destruct (hasNextPage page) eqn:Next.
        -- apply IH in Loop as (m & Hm); [| reflexivity]. cbn [cursor] in Hm.
           exists (S m). erewrite asked_shift by exact G.
           change (requests (?ev :: t2)) with (requests [ev] ++ requests t2).
           now rewrite Hm.
        -- rewrite while_done in Loop by reflexivity. injection Loop as _ _ <-.
           now exists 0%nat.
    + injection H as _ _ <-. now exists 0%nat.
Qed.

(** With full pages the count before the last page is a multiple of 50. *)
Lemma fetched_full_pages cur w : forall n,
  (forall k, (k < n)%nat ->
     exists p, page_at k cur w = Ok p /\ len (data p) = 50) ->
  len (fetched n cur w) = 50 * Z.of_nat n.
Proof.
  induction n as [| n IH]; intros Hfull; [reflexivity |].
  destruct (Hfull n) as (p & Hp & Hlen); [lia |].
  rewrite (fetched_snoc _ _ _ _ _ _ Hp), len_app, IH.
  - unfold ids_of. rewrite len_map. lia.
  - intros k Hk. apply Hfull. lia.
Qed.

End ListerMore.

(** X1: when the node serves full pages (50 coins on every page that
    announces a successor, at most 50 on the others), the Object Lister
    returns at most 5000 identifiers. *)
Theorem object_lister_exact_with_full_pages {W} (client : SuiClient W) (address : Address)
    (tokenAddress : TokenType) (fuel : nat) (w w' : W) ids t :
  (forall k p, page_at client address tokenAddress k None w = Ok p ->
     len (data p) <= 50 /\ (hasNextPage p = true -> len (data p) = 50)) ->
  getAllTokenObjectIds fuel client address tokenAddress w = Some (Ok ids, w', t) ->
  len ids <= 5000.
Proof.
  intros Hfull. rewrite lister_of_loop.
  destruct (while fuel _ _ _ w) as [[[[st | e] w1] t1] |] eqn:Loop; try discriminate;
    intros [= <- _ _]; [| unfold len; cbn [length]; lia].
  apply paging_finished in Loop as (n & page & Hp & Hacc & Hbefore & _ & _);
    [| reflexivity].
  unfold paging_start in Hp, Hacc, Hbefore. cbn [allCoins cursor app] in Hp, Hacc, Hbefore.
  rewrite Hacc, (fetched_snoc _ _ _ _ _ _ Hp), len_app.
  rewrite fetched_full_pages.
  - unfold ids_of. rewrite len_map. destruct (Hfull _ _ Hp) as [Hle _].
    destruct n as [| n]; [lia |].
    destruct (Hbefore n) as (q & Hq & Hnextq & Hlt); [lia |].
    rewrite (fetched_snoc _ _ _ _ _ _ Hq), len_app in Hlt.
    unfold ids_of in Hlt. rewrite len_map in Hlt.
    rewrite fetched_full_pages in Hlt.
    + destruct (Hfull _ _ Hq) as [_ Hq50]. specialize (Hq50 Hnextq). lia.
    + intros k Hk. destruct (Hbefore k) as (q' & Hq' & Hnext & _); [lia |].
      exists q'. split; [exact Hq' |]. now apply (Hfull _ _ Hq').
  - intros k Hk. destruct (Hbefore k) as (q & Hq & Hnext & _); [lia |].
    exists q. split; [exact Hq |]. now apply (Hfull _ _ Hq).
Qed.

Lemma object_lister_exact_with_full_pages_witness :
  exists ids w' t,
    getAllTokenObjectIds 200 Sample.client "0xa11ce" "0x2::sui::SUI" Sample.endless
      = Some (Ok ids, w', t) /\
    len ids <= 5000.
Proof.
  eexists _, _, _. split; [vm_compute; reflexivity |].
  eapply (object_lister_exact_with_full_pages Sample.client "0xa11ce" "0x2::sui::SUI" 200
            Sample.endless).
  - intros k p. rewrite page_at_endless. intros [= <-].
    split; [vm_compute; discriminate | intros _; vm_compute; reflexivity].
  - vm_compute. reflexivity.
Defined.

(** X2: every remote call of the Object Lister is a [getCoins] request for
    the given owner and coin type with limit 50; the first carries no
    cursor and each later one the [nextCursor] of the page before.  The
    lister submits nothing and waits for nothing. *)
Theorem object_lister_requests {W} (client : SuiClient W) (address : Address)
    (tokenAddress : TokenType) (fuel : nat) (w w' : W) r t :
  getAllTokenObjectIds fuel client address tokenAddress w = Some (r, w', t) ->
  (exists m,
     requests t
       = map (fun k => ReqGetCoins
                         {| gc_owner := address; gc_coinType := tokenAddress;
                            gc_cursor := cursor_at client address tokenAddress k None w;
                            gc_limit := 50 |})
           (seq 0 (S m))) /\
  actions t = [].
Proof.
  intros H. split; [| eapply lister_actions; exact H].
  rewrite lister_of_loop in H.
  destruct (while fuel _ _ _ w) as [[[[st | e] w1] t1] |] eqn:Loop; try discriminate;
    injection H as _ _ <-;
    apply paging_requests in Loop as (m & Hm); try reflexivity; exists m.
  - exact Hm.
  - rewrite requests_app, Hm. cbn [requests flat_map]. now rewrite app_nil_r.
Qed.

Lemma object_lister_requests_witness :
  exists r w' t,
    getAllTokenObjectIds 5 Sample.client "0xa11ce" "0x2::sui::SUI" (Sample.holding 120 50)
      = Some (r, w', t) /\
    requests t
      = [ ReqGetCoins {| gc_owner := "0xa11ce"; gc_coinType := "0x2::sui::SUI";
                         gc_cursor := None; gc_limit := 50 |};
          ReqGetCoins {| gc_owner := "0xa11ce"; gc_coinType := "0x2::sui::SUI";
                         gc_cursor := Some "0xc50"; gc_limit := 50 |};
          ReqGetCoins {| gc_owner := "0xa11ce"; gc_coinType := "0x2::sui::SUI";
                         gc_cursor := Some "0xc100"; gc_limit := 50 |} ].
Proof.
  eexists _, _, _. split; [vm_compute; reflexivity |].
  destruct (object_lister_requests Sample.client "0xa11ce" "0x2::sui::SUI" 5
              (Sample.holding 120 50) eq_refl) as [(m & Hm) _].
  vm_compute. reflexivity.
Defined.

(** * Further properties of the Batch Merger *)

Lemma chunks_step {A} f b (l : list A) :
  l <> [] -> chunks (S f) b l = firstn b l :: chunks f b (skipn b l).
Proof. destruct l; [easy | reflexivity]. Qed.

Lemma submitted_app t1 t2 : submitted (t1 ++ t2) = submitted t1 ++ submitted t2.
Proof. unfold submitted. now rewrite actions_app, flat_map_app. Qed.

Lemma submitted_quiet t : actions t = [] -> submitted t = [].
Proof. unfold submitted. now intros ->. Qed.

Section MergeMore.
Context {W : Type}.
Variable sdk : Sdk W.

#[local] Abbreviation merge_error e := (ConsoleError (Some ErrorMergingCoins) e).
#[local] Abbreviation large := (fun batch : list ObjectId => 1 <? len batch).

(** A finished [mergeCoinObjects] whose key was read has listed, then
    handled what it fetched. *)
Lemma merge_inv fuel privateKey tokenAddress batchSize rpcUrl keyPair (w w' : W) r t :
  fromSecretKey sdk privateKey = Ok keyPair ->
  mergeCoinObjects sdk fuel privateKey tokenAddress batchSize rpcUrl w = Some (r, w', t) ->
  exists ids w1 t1 t2,
    getAllTokenObjectIds fuel (newSuiClient sdk rpcUrl) (toSuiAddress sdk keyPair)
      tokenAddress w = Some (Ok ids, w1, t1) /\
    merge_fetched sdk fuel (newSuiClient sdk rpcUrl) keyPair tokenAddress batchSize ids w1
      = Some (r, w', t2) /\
    t = match r with
        | Ok _ => t1 ++ t2
        | Throw e => (t1 ++ t2) ++ [merge_error e]
        end.
Proof.
  intros Hkey H.
  destruct (getAllTokenObjectIds fuel (newSuiClient sdk rpcUrl) (toSuiAddress sdk keyPair)
              tokenAddress w) as [[[r1 w1] t1] |] eqn:Hlist.
  - destruct (lister_returns _ _ _ _ _ Hlist) as (ids & ->).
    erewrite merge_after_listing in H by eassumption.
    destruct (merge_fetched _ _ _ _ _ _ _ w1) as [[[[u | e] w2] t2] |] eqn:Hm;
      try discriminate; injection H as <- <- <-; exists ids, w1, t1, t2; auto.
  - unfold mergeCoinObjects, mergeCoinObjects_try, try_catch, bind, lift in H.
    rewrite Hkey in H. cbv zeta in H. rewrite Hlist in H. discriminate.
Qed.

(** On any node, the transactions the loop sends are the first ones of
    the plan, in order; all of them when it ends normally.  When it
    throws, either its last effect is the rejected submission, or
    [txb.object] refused an identifier with that error. *)
Lemma batch_loop_prefix client keyPair ids batchSize :
  0 < batchSize ->
  forall f i (w : W) r w' t, 0 <= i -> len ids - i <= Z.of_nat f ->
  batch_loop sdk f client keyPair ids batchSize i w = Some (r, w', t) ->
  exists rest,
    map merge_transaction
      (filter large (chunks f (Z.to_nat batchSize) (skipn (Z.to_nat i) ids)))
      = submitted t ++ rest /\
    (forall i', r = Ok i' -> rest = []) /\
    (forall e, r = Throw e ->
       (exists t0 batch,
          t = t0 ++ [Rpc (ReqSignAndExecute
                            (executeParams keyPair (merge_transaction batch)))]) \/
       (exists id, In id ids /\ checkObjectId sdk id = Throw e)).
Proof.
  intros HB. induction f as [| f IH]; intros i w r w' t Hi Hf H.
  - rewrite batch_loop_done in H by lia. injection H as <- _ <-.
    exists []. repeat split; auto; discriminate.
  - destruct (Z.le_gt_cases (len ids) i) as [Hout | Hin].
    + rewrite batch_loop_done in H by lia. injection H as <- _ <-.
      rewrite skipn_all2 by (unfold len in Hout; lia).
      exists []. repeat split; auto; discriminate.
    + rewrite batch_turn in H by lia. cbv zeta in H.
      pose proof (build_merge_inv sdk (batch_at ids batchSize i)) as Hbuild.
      assert (Hfrom : forall id, In id (batch_at ids batchSize i) -> In id ids)
        by (intros id; apply batch_at_In).
      rewrite batch_at_firstn in H, Hbuild by lia.
      assert (Hne : skipn (Z.to_nat i) ids <> []).
      { intros E. apply (f_equal (@length _)) in E. rewrite length_skipn in E.
        unfold len in Hin. cbn [length] in E. lia. }
      rewrite (chunks_step _ _ Hne), skipn_skipn.
      replace (Z.to_nat batchSize + Z.to_nat i)%nat with (Z.to_nat (i + batchSize)) by lia.
      cbn [filter]. revert H.
      destruct (1 <? len (firstn (Z.to_nat batchSize) (skipn (Z.to_nat i) ids))); intros H.
      * destruct (build_merge sdk _) as [txb | e].
        -- subst txb.
           destruct (signAndExecuteTransaction client _ w) as [[result | e] w1].
           ++ destruct (batch_loop sdk f client keyPair ids batchSize (i + batchSize) w1)
                as [[[r2 w2] t2] |] eqn:Loop; [| discriminate].
              injection H as <- <- <-.
              apply IH in Loop as (rest & Hrest & Hok & Hthrow); try lia.
              exists rest. split; [| split].
              ** cbn [map]. rewrite Hrest.
                 change (Rpc ?q :: ?l) with ([Rpc q] ++ l).
                 rewrite submitted_app. f_equal.
                 change (ConsoleLog ?m :: ?l) with ([ConsoleLog m] ++ l).
                 rewrite !submitted_app. destruct (i + batchSize <? len ids); reflexivity.
              ** exact Hok.
              ** intros e He. destruct (Hthrow e He) as [(t0 & batch & ->) | Hid];
                   [left | now right].
                 eexists (_ :: _ :: _ ++ t0), batch. cbn [app]. now rewrite <- app_assoc.
           ++ injection H as <- <- <-. eexists. split; [| split].
              ** cbn [map]. reflexivity.
              ** discriminate.
              ** intros e' _. left.
                 now exists [], (firstn (Z.to_nat batchSize) (skipn (Z.to_nat i) ids)).
        -- injection H as <- <- <-. eexists. split; [| split].
           ++ reflexivity.
           ++ discriminate.
           ++ intros e' [= <-]. right. destruct Hbuild as (id & Hid & He).
              exists id. split; [| exact He]. apply Hfrom.
              now rewrite batch_at_firstn by lia.
      * apply IH in H as (rest & Hrest & Hok & Hthrow); try lia.
        exists rest. auto.
Qed.

(** The same for what follows the listing. *)
Lemma merge_fetched_prefix fuel client keyPair tokenAddress batchSize ids
    (w w' : W) r t :
  0 < batchSize -> len ids <= Z.of_nat fuel ->
  merge_fetched sdk fuel client keyPair tokenAddress batchSize ids w = Some (r, w', t) ->
  exists rest,
    map merge_transaction (filter large (contiguous_batches batchSize ids))
      = submitted t ++ rest /\
    (r = Ok tt -> rest = []) /\
    (forall e, r = Throw e ->
       (exists t0 p, t = t0 ++ [Rpc (ReqSignAndExecute p)] /\ signer p = keyPair) \/
       (exists id, In id ids /\ checkObjectId sdk id = Throw e)).
Proof.
  intros HB Hfuel H.
  destruct (Z.le_gt_cases (len ids) 1) as [Hfew | Hmany].
  - rewrite merge_fetched_few in H by assumption. injection H as <- _ <-.
    exists []. split; [| split; [auto | discriminate]].
    rewrite <- submitted_plan, plan_of_small; [reflexivity |].
    now apply few_make_small_batches.
  - rewrite merge_fetched_many in H by assumption.
    destruct (batch_loop sdk fuel client keyPair ids batchSize 0 w)
      as [[[r2 w2] t2] |] eqn:Loop; [| discriminate].
    apply batch_loop_prefix in Loop as (rest & Hrest & Hok & Hthrow); try lia.
    change (Z.to_nat 0) with 0%nat in Hrest. cbn [skipn] in Hrest.
    assert (Hchunks : chunks fuel (Z.to_nat batchSize) ids
                      = contiguous_batches batchSize ids).
    { rewrite <- (Z2Nat.id batchSize) at 2 by lia.
      apply chunks_fuel; unfold len in Hfuel; lia. }
    rewrite Hchunks in Hrest. exists rest.
    destruct r2 as [i' | e]; injection H as <- _ <-.
    + split; [| split; [intros _; now apply (Hok i') | discriminate]].
      change (ConsoleLog ?m :: ?l) with ([ConsoleLog m] ++ l).
      rewrite !submitted_app. cbn [submitted actions flat_map action_of app].
      now rewrite app_nil_r.
    + split; [| split; [discriminate |]].
      * change (ConsoleLog ?m :: ?l) with ([ConsoleLog m] ++ l).
        now rewrite submitted_app.
      * intros e' [= <-]. destruct (Hthrow e eq_refl) as [(t0 & batch & ->) | Hid];
          [left | now right].
        eexists (_ :: t0), _. split; [reflexivity | reflexivity].
Qed.


End MergeMore.

Lemma len_merge_transaction (batch : list ObjectId) :
  batch <> [] -> len (merge_transaction batch) = len batch - 1.
Proof.
  destruct batch as [| x rest]; [easy |]. intros _. cbn [merge_transaction].
  rewrite len_map. unfold len. cbn [length]. lia.
Qed.

(** The transactions of a partition hold one command for each identifier
    that is not the first of its batch. *)
Lemma merged_count : forall f b (l : list ObjectId),
  (1 <= b)%nat -> (length l <= f)%nat ->
  len (concat (map merge_transaction (filter (fun batch => 1 <? len batch) (chunks f b l))))
    = len l - len (chunks f b l).
Proof.
  induction f as [| f IH]; intros b l Hb Hf.
  - destruct l; [reflexivity | cbn [length] in Hf; lia].
  - destruct l as [| x l]; [reflexivity |].
    rewrite chunks_cons. cbn [filter].
    assert (Hs : (length (skipn b (x :: l)) <= f)%nat).
    { rewrite length_skipn. cbn [length] in *. lia. }
    specialize (IH b (skipn b (x :: l)) Hb Hs).
    assert (Hsplit : len (x :: l) = len (firstn b (x :: l)) + len (skipn b (x :: l))).
    { rewrite <- len_app. now rewrite firstn_skipn. }
    assert (Hfirst : 1 <= len (firstn b (x :: l))).
    { unfold len. rewrite length_firstn. cbn [length]. lia. }
    assert (Hcons : len (firstn b (x :: l) :: chunks f b (skipn b (x :: l)))
                    = 1 + len (chunks f b (skipn b (x :: l)))).
    { unfold len. cbn [length]. lia. }
    rewrite Hcons, Hsplit.
    destruct (1 <? len (firstn b (x :: l))) eqn:Hbig.
    + cbn [map concat]. rewrite len_app, IH, len_merge_transaction; [lia |].
      intros E. rewrite E in Hfirst. unfold len in Hfirst. cbn [length] in Hfirst. lia.
    + rewrite IH. apply Z.ltb_ge in Hbig. lia.
Qed.

Lemma objects_of_large (batches : list (list ObjectId)) :
  Forall (fun batch => (1 <? len batch) = true) batches ->
  flat_map objects_of (map merge_transaction batches) = map TxObject (concat batches).
Proof.
  induction 1 as [| batch later Hbig _ IH]; [reflexivity |].
  cbn [map flat_map concat]. rewrite IH, map_app. f_equal.
  destruct batch as [| x [| y rest]]; try (cbv in Hbig; discriminate).
  destruct (merge_transaction_folds x (y :: rest)) as [_ Hsources].
  unfold objects_of. cbn [merge_transaction map destination_of] in *. now rewrite Hsources.
Qed.

Lemma NoDup_concat_filter {A} (f : list A -> bool) (l : list (list A)) :
  NoDup (concat l) -> NoDup (concat (filter f l)).
Proof.
  induction l as [| a l IH]; [easy |]. cbn [concat filter]. intros Hnd.
  pose proof (NoDup_app_remove_l _ _ Hnd) as Hl.
  destruct (f a); [| now apply IH].
  cbn [concat]. apply NoDup_app; [now apply NoDup_app_remove_r in Hnd | now apply IH |].
  intros x Hx Hin.
  assert (Hin' : In x (concat l)).
  { apply in_concat in Hin as (c & Hc & Hxc). apply in_concat. exists c.
    split; [| exact Hxc]. now apply filter_In in Hc. }
  revert Hnd Hx Hin'. clear. intros Hnd Hx Hin'.
  induction a as [| y a IHa]; [easy |].
  cbn [app] in Hnd. inversion Hnd as [| ? ? Hy Hnd']; subst.
  destruct Hx as [-> | Hx]; [apply Hy; apply in_or_app; now right | now apply IHa].
Qed.

Lemma NoDup_TxObject (l : list ObjectId) : NoDup l -> NoDup (map TxObject l).
Proof.
  induction 1 as [| x l Hx _ IH]; [constructor |]. cbn [map]. constructor; [| exact IH].
  intros Hin. apply in_map_iff in Hin as (y & [= ->] & Hy). contradiction.
Qed.

Lemma lister_at_any_fuel {W} (client : SuiClient W) address tokenAddress fuel0 fuel w x :
  getAllTokenObjectIds fuel0 client address tokenAddress w = Some x ->
  getAllTokenObjectIds fuel client address tokenAddress w = None \/
  getAllTokenObjectIds fuel client address tokenAddress w = Some x.
Proof.
  intros H0.
  destruct (getAllTokenObjectIds fuel client address tokenAddress w) as [y |] eqn:H;
    [right | now left].
  pose proof (@lister_more_fuel _ _ _ _ _ _ (Nat.le_max_r fuel0 fuel) _ _ H) as Hr.
  pose proof (@lister_more_fuel _ _ _ _ _ _ (Nat.le_max_l fuel0 fuel) _ _ H0) as Hl.
  congruence.
Qed.

(** With a negative batch size the index never comes back into the array:
    the loop cannot end normally, and cannot end at all when [txb.object]
    accepts the identifiers and the node accepts what is submitted. *)
Lemma batch_loop_negative {W} (sdk : Sdk W) (client : SuiClient W) keyPair ids batchSize :
  batchSize < 0 -> 0 < len ids ->
  forall f i (w : W), i <= 0 ->
  (forall i' w' t,
     batch_loop sdk f client keyPair ids batchSize i w <> Some (Ok i', w', t)) /\
  (forall accepting : W -> Prop,
     (forall id, In id ids -> checkObjectId sdk id = Ok tt) ->
     (forall p w0, accepting w0 ->
        exists result w2,
          signAndExecuteTransaction client p w0 = (Ok result, w2) /\ accepting w2) ->
     accepting w -> batch_loop sdk f client keyPair ids batchSize i w = None).
Proof.
  intros HB Hlen. induction f as [| f IH]; intros i w Hi.
  - unfold batch_loop. cbn [while]. replace (i <? len ids) with true by lia.
    split; [discriminate | reflexivity].
  - split.
    + rewrite batch_turn by lia. cbv zeta.
      destruct (1 <? len (batch_at ids batchSize i)); [| apply IH; lia].
      intros i' w' t.
      destruct (build_merge sdk _) as [txb | e]; [| discriminate].
      destruct (signAndExecuteTransaction client _ w) as [[result | e] w1];
        [| discriminate].
      destruct (IH (i + batchSize) w1) as [Hnever _]; [lia |].
      destruct (batch_loop sdk f client keyPair ids batchSize (i + batchSize) w1)
        as [[[r2 w2] t2] |] eqn:Loop; [| discriminate].
      intros [= -> <- <-]. exact (Hnever _ _ _ eq_refl).
    + intros accepting Hbuilt Haccept Hw.
      rewrite batch_turn_built by (assumption || lia). cbv zeta.
      destruct (1 <? len (batch_at ids batchSize i)).
      * destruct (Haccept (executeParams keyPair
                             (merge_transaction (batch_at ids batchSize i)))
                    w Hw) as (result & w1 & Hok & Hw1).
        rewrite Hok.
        destruct (IH (i + batchSize) w1) as [_ Hnone]; [lia |].
        now rewrite (Hnone accepting Hbuilt Haccept Hw1).
      * destruct (IH (i + batchSize) w) as [_ Hnone]; [lia |].
        now apply (Hnone accepting).
Qed.

(** X3: a listing that fails, at whatever page, does not fail the merge:
    [mergeCoinObjects] prints the listing error, finds nothing to merge,
    submits nothing and returns normally. *)
Theorem failed_listing_merges_nothing {W} (sdk : Sdk W) fuel privateKey tokenAddress
    batchSize rpcUrl keyPair (w : W) n e :
  fromSecretKey sdk privateKey = Ok keyPair ->
  page_at (newSuiClient sdk rpcUrl) (toSuiAddress sdk keyPair) tokenAddress n None w
    = Throw e ->
  (forall k, (k < n)%nat ->
     exists p,
       page_at (newSuiClient sdk rpcUrl) (toSuiAddress sdk keyPair) tokenAddress k None w
         = Ok p /\
       hasNextPage p = true /\
       len (fetched (newSuiClient sdk rpcUrl) (toSuiAddress sdk keyPair) tokenAddress
              (S k) None w) < 5000) ->
  (n < fuel)%nat ->
  exists w' t0,
    mergeCoinObjects sdk fuel privateKey tokenAddress batchSize rpcUrl w
      = Some (Ok tt, w',
              t0 ++ [ConsoleError
                       (Some (ErrorFetchingCoinObjectIds (toSuiAddress sdk keyPair))) e;
                     ConsoleLog NoCoinsNeedMerged]) /\
    page_requests t0 = Z.of_nat (S n) /\
    submissions t0 = 0.
Proof.
  intros Hkey Hfail Hbefore Hfuel.
  destruct (@paging_failed _ (newSuiClient sdk rpcUrl) (toSuiAddress sdk keyPair)
              tokenAddress n fuel paging_start w e) as (w' & t & Hrun & Hreq); auto.
  assert (Hlist : getAllTokenObjectIds fuel (newSuiClient sdk rpcUrl)
                    (toSuiAddress sdk keyPair) tokenAddress w
                  = Some (Ok [], w',
                          t ++ [ConsoleError
                                  (Some (ErrorFetchingCoinObjectIds
                                           (toSuiAddress sdk keyPair))) e])).
  { rewrite lister_of_loop, Hrun. reflexivity. }
  exists w', t. split; [| split; [exact Hreq |]].
  - erewrite merge_after_listing by eassumption.
    rewrite merge_fetched_few by (unfold len; cbn [length]; lia).
    now rewrite <- app_assoc.
  - unfold submissions. apply paging_actions in Hrun. now rewrite Hrun.
Qed.

Lemma failed_listing_merges_nothing_witness :
  exists w' t0,
    mergeCoinObjects Sample.sdk 5 "c0ffee" "0x2::sui::SUI" 500 SUI_RPC_URL
      Sample.failing_third_page
      = Some (Ok tt, w',
              t0 ++ [ConsoleError (Some (ErrorFetchingCoinObjectIds "0xa11ce"))
                       "request timed out";
                     ConsoleLog NoCoinsNeedMerged]) /\
    page_requests t0 = 3 /\ submissions t0 = 0.
Proof.
  apply (@failed_listing_merges_nothing _ Sample.sdk 5 "c0ffee" "0x2::sui::SUI" 500
           SUI_RPC_URL {| secretKeyHex := "c0ffee" |} Sample.failing_third_page 2%nat
           "request timed out"); [reflexivity | reflexivity | | lia].
  intros [| [| k]] Hk; [| | lia]; eexists; (split; [reflexivity | split; [reflexivity |]]);
    vm_compute; reflexivity.
Defined.

(** X4: with a negative batch size and two or more identifiers, the first
    batch is the array less its last [-batchSize] elements, the index then
    stays negative, and [mergeCoinObjects] never returns normally; when
    [txb.object] accepts the identifiers and the node accepts what is
    submitted, it never returns at all. *)
Theorem negative_batch_size_never_returns {W} (sdk : Sdk W) privateKey tokenAddress
    batchSize rpcUrl keyPair fuel0 (w w1 : W) ids t1 :
  batchSize < 0 ->
  fromSecretKey sdk privateKey = Ok keyPair ->
  getAllTokenObjectIds fuel0 (newSuiClient sdk rpcUrl) (toSuiAddress sdk keyPair)
    tokenAddress w = Some (Ok ids, w1, t1) ->
  2 <= len ids ->
  batch_at ids batchSize 0 = firstn (Z.to_nat (len ids + batchSize)) ids /\
  (forall fuel w' t,
     mergeCoinObjects sdk fuel privateKey tokenAddress batchSize rpcUrl w
       <> Some (Ok tt, w', t)) /\
  (forall accepting : W -> Prop,
     (forall id, In id ids -> checkObjectId sdk id = Ok tt) ->
     (forall p w0, accepting w0 ->
        exists result w2,
          signAndExecuteTransaction (newSuiClient sdk rpcUrl) p w0 = (Ok result, w2) /\
          accepting w2) ->
     accepting w1 ->
     forall fuel,
       mergeCoinObjects sdk fuel privateKey tokenAddress batchSize rpcUrl w = None).
Proof.
  intros HB Hkey Hlist Hlen. split; [| split].
  - unfold batch_at, slice, relative_index.
    replace (0 <? 0) with false by lia.
    replace (Z.min (0 + batchSize) (len ids)) with batchSize by lia.
    replace (batchSize <? 0) with true by lia.
    rewrite Z.min_l by lia. cbn [Z.to_nat skipn]. f_equal. lia.
  - intros fuel w' t H.
    destruct (@lister_at_any_fuel _ _ _ _ fuel0 fuel _ _ Hlist) as [Hnone | Hsame].
    + unfold mergeCoinObjects, mergeCoinObjects_try, try_catch, bind, lift in H.
      rewrite Hkey in H. cbv zeta in H. rewrite Hnone in H. discriminate.
    + erewrite merge_after_listing in H by eassumption.
      rewrite merge_fetched_many in H by lia.
      destruct (@batch_loop_negative _ sdk (newSuiClient sdk rpcUrl) keyPair ids batchSize
                  HB ltac:(lia) fuel 0 w1 ltac:(lia)) as [Hnever _].
      destruct (batch_loop sdk fuel _ keyPair ids batchSize 0 w1)
        as [[[[i' | e] w2] t2] |]; try discriminate.
      exact (Hnever _ _ _ eq_refl).
  - intros accepting Hbuilt Haccept Hw1 fuel.
    destruct (@lister_at_any_fuel _ _ _ _ fuel0 fuel _ _ Hlist) as [Hnone | Hsame].
    + unfold mergeCoinObjects, mergeCoinObjects_try, try_catch, bind, lift.
      rewrite Hkey. cbv zeta. now rewrite Hnone.
    + erewrite merge_after_listing by eassumption.
      rewrite merge_fetched_many by lia.
      destruct (@batch_loop_negative _ sdk (newSuiClient sdk rpcUrl) keyPair ids batchSize
                  HB ltac:(lia) fuel 0 w1 ltac:(lia)) as [_ Hnone].
      now rewrite (Hnone accepting Hbuilt Haccept Hw1).
Qed.

Lemma negative_batch_size_never_returns_witness :
  batch_at ["0xc0"; "0xc1"; "0xc2"; "0xc3"; "0xc4"] (-2) 0 = ["0xc0"; "0xc1"; "0xc2"] /\
  forall fuel,
    mergeCoinObjects Sample.sdk fuel "c0ffee" "0x2::sui::SUI" (-2) SUI_RPC_URL
      (Sample.holding 5 50) = None.
Proof.
  destruct (@negative_batch_size_never_returns _ Sample.sdk "c0ffee" "0x2::sui::SUI" (-2)
              SUI_RPC_URL {| secretKeyHex := "c0ffee" |} 5%nat (Sample.holding 5 50)
              _ _ _ ltac:(lia) eq_refl eq_refl ltac:(vm_compute; discriminate))
    as (Hfirst & _ & Hnone).
  split; [exact Hfirst |].
  apply (Hnone (fun w => Sample.outcomes w = []));
    [intros id _; reflexivity | exact sample_accepts | reflexivity].
Defined.

(** X5: a run of [mergeCoinObjects] that returns normally has merged away
    [N - ceil (N / B)] objects, each by a command of one source: a single
    pass leaves one object for each batch, not one object in all. *)
Theorem merge_leaves_one_object_per_batch {W} (sdk : Sdk W) fuel privateKey tokenAddress
    batchSize rpcUrl keyPair (w w1 w' : W) ids t1 t :
  0 < batchSize ->
  fromSecretKey sdk privateKey = Ok keyPair ->
  getAllTokenObjectIds fuel (newSuiClient sdk rpcUrl) (toSuiAddress sdk keyPair)
    tokenAddress w = Some (Ok ids, w1, t1) ->
  len ids <= Z.of_nat fuel ->
  mergeCoinObjects sdk fuel privateKey tokenAddress batchSize rpcUrl w
    = Some (Ok tt, w', t) ->
  len (concat (submitted t)) = len ids - ceil_div (len ids) batchSize /\
  Forall (fun c => len (sources_of c) = 1) (concat (submitted t)).
Proof.
  intros HB Hkey Hlist Hfuel H.
  destruct (@merge_inv _ sdk _ _ _ _ _ _ _ _ _ _ Hkey H) as (ids' & w1' & t1' & t2 & Hlist' & Hm & ->).
  rewrite Hlist in Hlist'. injection Hlist' as <- <- <-.
  destruct (@merge_fetched_prefix _ _ _ _ _ _ _ _ _ _ _ _ HB Hfuel Hm) as (rest & Hrest & Hok & _).
  rewrite (Hok eq_refl), app_nil_r in Hrest.
  rewrite submitted_app, (@submitted_quiet _ (@lister_actions _ _ _ _ _ _ _ _ _ Hlist)).
  cbn [app]. rewrite <- Hrest. split.
  - unfold contiguous_batches. rewrite merged_count by lia.
    rewrite chunks_count by lia. now rewrite Z2Nat.id by lia.
  - apply Forall_concat. apply Forall_map. apply Forall_forall. intros batch _.
    destruct batch as [| x tail]; [constructor |]. cbn [merge_transaction].
    apply Forall_map. apply Forall_forall. intros id _. reflexivity.
Qed.

Lemma merge_leaves_one_object_per_batch_witness :
  exists w' t,
    mergeCoinObjects Sample.sdk 20 "c0ffee" "0x2::sui::SUI" 3 SUI_RPC_URL (Sample.holding 7 50)
      = Some (Ok tt, w', t) /\
    len (concat (submitted t)) = 4.
Proof.
  eexists _, _. split; [vm_compute; reflexivity |].
  refine (proj1 (@merge_leaves_one_object_per_batch _ Sample.sdk 20 "c0ffee" "0x2::sui::SUI"
                   3 SUI_RPC_URL {| secretKeyHex := "c0ffee" |} (Sample.holding 7 50)
                   _ _ (map coinObjectId (map Sample.coin (seq 0 7))) _ _
                   _ eq_refl _ _ _)).
  - lia.
  - vm_compute. reflexivity.
  - vm_compute. discriminate.
  - vm_compute. reflexivity.
Defined.



(** X7: when the identifiers fetched are distinct, no object is named by
    two of the transactions [mergeCoinObjects] submits, nor twice by one. *)
Theorem no_object_in_two_transactions {W} (sdk : Sdk W) fuel privateKey tokenAddress
    batchSize rpcUrl keyPair (w w1 w' : W) ids t1 r t :
  0 < batchSize ->
  fromSecretKey sdk privateKey = Ok keyPair ->
  getAllTokenObjectIds fuel (newSuiClient sdk rpcUrl) (toSuiAddress sdk keyPair)
    tokenAddress w = Some (Ok ids, w1, t1) ->
  len ids <= Z.of_nat fuel ->
  NoDup ids ->
  mergeCoinObjects sdk fuel privateKey tokenAddress batchSize rpcUrl w = Some (r, w', t) ->
  NoDup (flat_map objects_of (submitted t)) /\
  (forall arg, In arg (flat_map objects_of (submitted t)) ->
     exists id, arg = TxObject id /\ In id ids).
Proof.
  intros HB Hkey Hlist Hfuel Hnd H.
  destruct (@merge_inv _ sdk _ _ _ _ _ _ _ _ _ _ Hkey H) as (ids' & w1' & t1' & t2 & Hlist' & Hm & Ht).
  rewrite Hlist in Hlist'. injection Hlist' as <- <- <-.
  destruct (@merge_fetched_prefix _ _ _ _ _ _ _ _ _ _ _ _ HB Hfuel Hm) as (rest & Hrest & _ & _).
  assert (Hsub : submitted t = submitted t2).
  { pose proof (@submitted_quiet _ (@lister_actions _ _ _ _ _ _ _ _ _ Hlist)) as Hquiet.
    subst t. destruct r; rewrite !submitted_app, Hquiet; [reflexivity |].
    now rewrite app_nil_r. }
  rewrite Hsub.
  assert (Hcat : concat (contiguous_batches batchSize ids) = ids).
  { apply chunks_concat; lia. }
  assert (Hall : flat_map objects_of (submitted t2) ++ flat_map objects_of rest
                 = map TxObject
                     (concat (filter (fun batch => 1 <? len batch)
                                (contiguous_batches batchSize ids)))).
  { rewrite <- flat_map_app, <- Hrest. apply objects_of_large.
    apply Forall_forall. intros batch Hin. now apply filter_In in Hin. }
  split.
  - apply NoDup_app_remove_r with (l' := flat_map objects_of rest). rewrite Hall.
    apply NoDup_TxObject, NoDup_concat_filter. now rewrite Hcat.
  - intros arg Hin.
    assert (Hin' : In arg (flat_map objects_of (submitted t2) ++ flat_map objects_of rest))
      by (apply in_or_app; now left).
    rewrite Hall in Hin'. apply in_map_iff in Hin' as (id & <- & Hid).
    exists id. split; [reflexivity |]. rewrite <- Hcat.
    apply in_concat in Hid as (c & Hc & Hidc). apply in_concat. exists c.
    split; [| exact Hidc]. now apply filter_In in Hc.
Qed.

Lemma no_object_in_two_transactions_witness :
  exists w' t,
    mergeCoinObjects Sample.sdk 20 "c0ffee" "0x2::sui::SUI" 2 SUI_RPC_URL (Sample.holding 5 50)
      = Some (Ok tt, w', t) /\
    NoDup (flat_map objects_of (submitted t)).
Proof.
  eexists _, _. split; [vm_compute; reflexivity |].
  refine (proj1 (@no_object_in_two_transactions _ Sample.sdk 20 "c0ffee" "0x2::sui::SUI"
                   2 SUI_RPC_URL {| secretKeyHex := "c0ffee" |} (Sample.holding 5 50)
                   _ _ ["0xc0"; "0xc1"; "0xc2"; "0xc3"; "0xc4"] _ (Ok tt) _
                   _ eq_refl _ _ _ _)).
  - lia.
  - vm_compute. reflexivity.
  - vm_compute. discriminate.
  - repeat (constructor; [cbn; intuition discriminate |]). constructor.
  - vm_compute. reflexivity.
Defined.

(** X8: whatever the node answers and whatever the batch size, a finished
    [mergeCoinObjects] has only asked for the coins of the address of its
    key pair and of the given type, 50 to a page, and submitted
    transactions signed with that key pair, asking for effects and
    events, each merging at least one object into another; every wait it
    made was of 1000 ms.  It never asks for balances. *)
Theorem merge_effects_are_disciplined {W} (sdk : Sdk W) fuel privateKey tokenAddress
    batchSize rpcUrl keyPair (w w' : W) r t :
  fromSecretKey sdk privateKey = Ok keyPair ->
  mergeCoinObjects sdk fuel privateKey tokenAddress batchSize rpcUrl w = Some (r, w', t) ->
  Forall (merge_event (toSuiAddress sdk keyPair) tokenAddress keyPair) t.
Proof.
  intros Hkey H.
  destruct (@merge_inv _ sdk _ _ _ _ _ _ _ _ _ _ Hkey H)
    as (ids & w1 & t1 & t2 & Hlist & Hm & ->).
  pose proof (@lister_events _ _ _ tokenAddress keyPair _ _ _ _ _ Hlist) as H1.
  pose proof (@merge_fetched_events _ _ _ (toSuiAddress sdk keyPair) _ _ _ _ _ _ _ _ _ Hm)
    as H2.
  destruct r as [u | e]; repeat (apply Forall_app; split); auto.
  constructor; [exact I | constructor].
Qed.

Lemma merge_effects_are_disciplined_witness :
  exists r w' t,
    mergeCoinObjects Sample.sdk 20 "c0ffee" "0x2::sui::SUI" 2 SUI_RPC_URL (Sample.rejecting 5)
      = Some (r, w', t) /\
    Forall (merge_event "0xa11ce" "0x2::sui::SUI" {| secretKeyHex := "c0ffee" |}) t.
Proof.
  eexists _, _, _. split; [vm_compute; reflexivity |].
  eapply (@merge_effects_are_disciplined _ Sample.sdk 20 "c0ffee" "0x2::sui::SUI" 2
            SUI_RPC_URL {| secretKeyHex := "c0ffee" |} (Sample.rejecting 5));
    [reflexivity | vm_compute; reflexivity].
Defined.





(** * Further properties of the Driver *)

Lemma token_lines_app t1 t2 : token_lines (t1 ++ t2) = token_lines t1 ++ token_lines t2.
Proof. apply flat_map_app. Qed.





Section DriverMore.
Context {W : Type}.
Variable sdk : Sdk W.

#[local] Abbreviation merge_error e := (ConsoleError (Some ErrorMergingCoins) e).





End DriverMore.



(** X11: when the private key cannot be decoded or the key pair cannot be
    built, the driver makes no remote call at all: it prints the error
    and exits with status 0. *)
Theorem driver_without_key_calls_nothing {W} (sdk : Sdk W) fuel (w : W) e :
  decodeSuiPrivateKey sdk (MERGE_COIN_PRIVATE_KEY sdk) = Throw e \/
  (exists privateKey,
     decodeSuiPrivateKey sdk (MERGE_COIN_PRIVATE_KEY sdk) = Ok privateKey /\
     fromSecretKey sdk privateKey = Throw e) ->
  run sdk fuel w = Some (0, [ConsoleError None e]) /\
  main sdk fuel w = Some (Throw e, w, []).
Proof.
  intros [Hdec | (privateKey & Hdec & Hkey)];
    unfold run, program, try_catch, main, bind, lift; rewrite Hdec; try rewrite Hkey;
    split; reflexivity.
Qed.

Lemma driver_without_key_calls_nothing_witness :
  run Sample.sdk_without_key 5 (Sample.holding 3 50)
    = Some (0, [ConsoleError None "invalid private key"]).
Proof.
  apply (@driver_without_key_calls_nothing _ Sample.sdk_without_key 5 (Sample.holding 3 50)
           "invalid private key").
  left. reflexivity.
Defined.


